(** * LifeProg: emission simulation (source_environ_1.0.1.ts, source_environ_1.0.2.ts)

    A shallow embedding of the two simulation scripts: the sphere surface
    area, the Stefan-Boltzmann emission rate, the kappa sampler, the update
    step that moves energy from the source account to the environment, the
    Maxwell-Boltzmann function, the file names and the loop of [main] with
    its two CSV streams.

    Numbers.  A TypeScript [number] is modelled as an exact real or one of
    the three special values of IEEE 754 ([Infinity], [-Infinity], [NaN]).
    The special values follow the ECMAScript rules; on finite values the
    arithmetic is the exact arithmetic of the reals: binary64 rounding,
    overflow to infinity, underflow to zero and the sign of zero are not
    modelled (a zero is a positive zero).  The properties are therefore
    stated so that they do not rest on exactness: as equalities between
    results of the same operations, as signs and special values, and with
    explicit bounds on the data where a finite result is asserted. *)

From Stdlib Require Import Reals Lra Lia List ZArith Bool.
From Stdlib Require Ascii String.
Import ListNotations.

Local Open Scope R_scope.

(** ** Numbers *)

Inductive number : Type :=
| Fin (r : R)
| PInf
| NInf
| NaN.

Declare Scope num_scope.
Delimit Scope num_scope with num.
Bind Scope num_scope with number.

(** Sign of a real, as a three-way comparison with zero. *)
Definition Rsgn (r : R) : comparison :=
  match total_order_T r 0 with
  | inleft (left _) => Lt
  | inleft (right _) => Eq
  | inright _ => Gt
  end.

Definition is_finite (a : number) : Prop :=
  match a with Fin _ => True | _ => False end.

Definition neg (a : number) : number :=
  match a with
  | Fin x => Fin (- x)
  | PInf => NInf
  | NInf => PInf
  | NaN => NaN
  end.

Definition add (a b : number) : number :=
  match a, b with
  | NaN, _ | _, NaN => NaN
  | Fin x, Fin y => Fin (x + y)
  | PInf, NInf | NInf, PInf => NaN
  | PInf, _ | _, PInf => PInf
  | NInf, _ | _, NInf => NInf
  end.

Definition sub (a b : number) : number := add a (neg b).

Definition mul (a b : number) : number :=
  match a, b with
  | NaN, _ | _, NaN => NaN
  | Fin x, Fin y => Fin (x * y)
  | Fin x, PInf | PInf, Fin x =>
      match Rsgn x with Gt => PInf | Lt => NInf | Eq => NaN end
  | Fin x, NInf | NInf, Fin x =>
      match Rsgn x with Gt => NInf | Lt => PInf | Eq => NaN end
  | PInf, PInf | NInf, NInf => PInf
  | PInf, NInf | NInf, PInf => NInf
  end.

Definition div (a b : number) : number :=
  match a, b with
  | NaN, _ | _, NaN => NaN
  | Fin x, Fin y =>
      match Rsgn y with
      | Eq => match Rsgn x with Gt => PInf | Lt => NInf | Eq => NaN end
      | _ => Fin (x / y)
      end
  | Fin _, _ => Fin 0
  | PInf, Fin y => match Rsgn y with Lt => NInf | _ => PInf end
  | NInf, Fin y => match Rsgn y with Lt => PInf | _ => NInf end
  | _, _ => NaN
  end.

Infix "+" := add : num_scope.
Infix "-" := sub : num_scope.
Infix "*" := mul : num_scope.
Infix "/" := div : num_scope.

(** [Math.cbrt]: the real cube root, odd in its argument. *)
Definition Rcbrt (x : R) : R :=
  match Rsgn x with
  | Gt => Rpower x (/ 3)
  | Eq => 0
  | Lt => - Rpower (- x) (/ 3)
  end.

Definition Math_cbrt (a : number) : number :=
  match a with
  | Fin x => Fin (Rcbrt x)
  | other => other
  end.

(** [Math.pow], after Number::exponentiate of ECMAScript. *)
Definition is_integral (y : R) : bool :=
  if Req_dec_T y (IZR (Int_part y)) then true else false.

Definition Math_pow (base exponent : number) : number :=
  match exponent with
  | NaN => NaN
  | Fin y =>
      match Rsgn y with
      | Eq => Fin 1
      | sy =>
          match base with
          | NaN => NaN
          | PInf => match sy with Gt => PInf | _ => Fin 0 end
          | NInf =>
              match sy with
              | Gt => if is_integral y && Z.odd (Int_part y) then NInf else PInf
              | _ => Fin 0
              end
          | Fin x =>
              match Rsgn x with
              | Eq => match sy with Gt => Fin 0 | _ => PInf end
              | sx =>
                  if is_integral y then Fin (powerRZ x (Int_part y))
                  else match sx with Gt => Fin (Rpower x y) | _ => NaN end
              end
          end
      end
  | PInf =>
      match base with
      | NaN => NaN
      | Fin x =>
          match Rsgn (Rabs x - 1) with Gt => PInf | Eq => NaN | Lt => Fin 0 end
      | _ => PInf
      end
  | NInf =>
      match base with
      | NaN => NaN
      | Fin x =>
          match Rsgn (Rabs x - 1) with Gt => Fin 0 | Eq => NaN | Lt => PInf end
      | _ => Fin 0
      end
  end.

(** [Math.random()]: the generator is the sequence of the draws still to
    come, each a real in the interval from 0 (included) to 1 (excluded). *)
Definition rng : Type := nat -> R.

Definition Math_random (g : rng) : number * rng :=
  (Fin (g 0%nat), fun n => g (S n)).

Definition draws_in_range (g : rng) : Prop := forall n, 0 <= g n < 1.
Definition draws_nonzero (g : rng) : Prop := forall n, 0 < g n < 1.

(** ** Arrays of numbers

    A read past the end gives [undefined] ([None]), which arithmetic turns
    into NaN; a write past the end extends the array, the skipped cells being
    holes that read the same way and are kept as NaN. *)

Definition array_get (a : list number) (index : nat) : option number :=
  nth_error a index.

Definition to_number (o : option number) : number :=
  match o with Some v => v | None => NaN end.

Fixpoint array_replace (a : list number) (index : nat) (v : number) : list number :=
  match a, index with
  | [], _ => []
  | _ :: rest, O => v :: rest
  | x :: rest, S i => x :: array_replace rest i v
  end.

Definition array_set (a : list number) (index : nat) (v : number) : list number :=
  if (index <? length a)%nat then array_replace a index v
  else a ++ repeat NaN (index - length a) ++ [v].

(** [a.forEach((val, index) => ...)] where the callback updates a state. *)
Fixpoint forEach_from {S : Type} (f : S -> number -> nat -> S)
    (a : list number) (index : nat) (s : S) : S :=
  match a with
  | [] => s
  | val :: rest => forEach_from f rest (Datatypes.S index) (f s val index)
  end.

Definition forEach {S : Type} (f : S -> number -> nat -> S) (a : list number) (s : S) : S :=
  forEach_from f a 0%nat s.

(** [a.reduce((sum, val) => sum + val, 0)] *)
Definition reduce_sum (a : list number) : number :=
  fold_left (fun sum val => (sum + val)%num) a (Fin 0).

(** ** Code shared by the two versions *)

Definition STEFAN_BOLTZMAN_CONSTANT : number := Fin 5.670374419e-8.

Record SourceAccount : Type := mkSourceAccount {
  balance : number;
  emissionRate : number;
  lastUpdateTime : number;
  initialSupply : number
}.

Definition calculateSurfaceArea (volume : number) : number :=
  let PI := Fin 3.14159 in
  let radius := Math_cbrt (volume / ((Fin 4 / Fin 3) * PI)) in
  (Fin 4 * PI * Math_pow radius (Fin 2))%num.

(** ** source_environ_1.0.1.ts *)

Module V101.

(** The [balance] field of the environment is [env_balance] here, the name
    [balance] being the projection of [SourceAccount]. *)
Record Environment : Type := mkEnvironment {
  env_balance : number
}.

Definition calculateEmissionRate
    (surfaceArea surfaceTemperature sourceBalance : number) : number :=
  let desiredRatio := Fin 4.65e20 in
  (STEFAN_BOLTZMAN_CONSTANT * surfaceArea * Math_pow surfaceTemperature (Fin 4)
     / desiredRatio)%num.

Definition calculateEmissionAmount (source : SourceAccount) (elapsedTime : number)
    : number :=
  let surfaceArea := calculateSurfaceArea (balance source) in
  let surfaceTemperature := balance source in
  let emissionRate :=
    calculateEmissionRate surfaceArea surfaceTemperature (balance source) in
  (emissionRate * elapsedTime)%num.

Definition updateSourceAndEnvironment
    (source : SourceAccount) (environment : Environment) (currentTime : number)
    : SourceAccount * Environment :=
  let elapsedTime := ((currentTime - lastUpdateTime source) / Fin 1000)%num in
  let surfaceArea := calculateSurfaceArea (balance source) in
  let surfaceTemperature := balance source in
  let emissionAmount := calculateEmissionAmount source elapsedTime in
  ({| balance := balance source - emissionAmount;
      emissionRate := emissionRate source;
      lastUpdateTime := currentTime;
      initialSupply := initialSupply source |},
   {| env_balance := env_balance environment + emissionAmount |}).

(** [now] is the value of [Date.now()] at the call. *)
Definition initializeSourceAccount (initialSupply now : number) : SourceAccount :=
  let surfaceArea := calculateSurfaceArea initialSupply in
  let surfaceTemperature := initialSupply in
  let emissionRate :=
    calculateEmissionRate surfaceArea surfaceTemperature initialSupply in
  {| balance := initialSupply;
     emissionRate := emissionRate;
     lastUpdateTime := now;
     initialSupply := initialSupply |}.

Definition initializeEnvironment : Environment := {| env_balance := Fin 0 |}.

End V101.

(** ** source_environ_1.0.2.ts *)

Module V102.

Definition KAPPA : number := Fin 3.5.

Record Environment : Type := mkEnvironment {
  env_balance : number;
  levels : list number
}.

Fixpoint kappaRandom (kappa : number) (numSamples : nat) (g : rng)
    : list number * rng :=
  match numSamples with
  | O => ([], g)
  | S n =>
      let '(u, g) := Math_random g in
      let '(v, g) := Math_random g in
      let '(w, g) := Math_random g in
      let x := (Math_pow u (Fin (-1) / kappa) - Fin 1)%num in
      let y := (Math_pow v (Fin (-1) / kappa) - Fin 1)%num in
      let z := (Math_pow w (Fin (-1) / kappa) - Fin 1)%num in
      let '(values, g) := kappaRandom kappa n g in
      (((x + y + z) / Fin 3)%num :: values, g)
  end.

Definition calculateEmissionRate (surfaceArea surfaceTemperature : number) : number :=
  ((STEFAN_BOLTZMAN_CONSTANT * surfaceArea * Math_pow surfaceTemperature (Fin 4))
     / Fin 4.65e20)%num.

Definition updateSourceAndEnvironment
    (source : SourceAccount) (environment : Environment) (currentTime : number)
    (g : rng) : SourceAccount * Environment * rng :=
  let elapsedTime := ((currentTime - lastUpdateTime source) / Fin 1000)%num in
  let surfaceArea := calculateSurfaceArea (balance source) in
  let emissionAmount :=
    (calculateEmissionRate surfaceArea (balance source) * elapsedTime)%num in
  let '(levelDistribution, g) := kappaRandom KAPPA 100 g in
  let totalDistribution := reduce_sum levelDistribution in
  let normalizedDistribution :=
    map (fun val => (val / totalDistribution)%num) levelDistribution in
  let levels' :=
    forEach (fun lv val index =>
               array_set lv index
                 (to_number (array_get lv index) + val * emissionAmount)%num)
            normalizedDistribution (levels environment) in
  ({| balance := balance source - emissionAmount;
      emissionRate := emissionRate source;
      lastUpdateTime := currentTime;
      initialSupply := initialSupply source |},
   {| env_balance := env_balance environment + emissionAmount;
      levels := levels' |},
   g).

Definition initializeSourceAccount (initialSupply now : number) : SourceAccount :=
  let surfaceArea := calculateSurfaceArea initialSupply in
  let emissionRate := calculateEmissionRate surfaceArea initialSupply in
  {| balance := initialSupply;
     emissionRate := emissionRate;
     lastUpdateTime := now;
     initialSupply := initialSupply |}.

Definition initializeEnvironment : Environment :=
  {| env_balance := Fin 0; levels := repeat (Fin 0) 100 |}.

End V102.

(** ** Real-valued closed forms and runs used in the statements *)


(** What [calculateSurfaceArea] and [calculateEmissionRate] compute on a
    finite argument. *)
Definition area_R (v : R) : R :=
  4 * 3.14159 * Rcbrt (v / (4 / 3 * 3.14159)) ^ 2.

Definition rate_R (b : R) : R :=
  5.670374419e-8 * area_R b * b ^ 4 / 4.65e20.

(** One raw sample of [kappaRandom] from its three draws, for positive draws. *)
Definition sample_R (k u v w : R) : R :=
  ((Rpower u (-1 / k) - 1) + (Rpower v (-1 / k) - 1) + (Rpower w (-1 / k) - 1)) / 3.

(** The generator after [n] draws. *)
Definition skip (n : nat) (g : rng) : rng := fun i => g (n + i)%nat.

Fixpoint samples_R (k : R) (n : nat) (g : rng) : list R :=
  match n with
  | O => []
  | S n' => sample_R k (g 0%nat) (g 1%nat) (g 2%nat) :: samples_R k n' (skip 3 g)
  end.

(** A generator that always draws [r], and one whose first draw is 0 and
    whose other draws are 1/2. *)
Definition const_rng (r : R) : rng := fun _ => r.
Definition zero_first : rng := fun n => match n with O => 0 | S _ => / 2 end.

(** The levels after the [forEach] of the update, cell by cell. *)
Fixpoint add_levels (lv incs : list number) : list number :=
  match incs with
  | [] => lv
  | d :: ds =>
      match lv with
      | [] => (NaN + d)%num :: add_levels [] ds
      | l :: lv' => (l + d)%num :: add_levels lv' ds
      end
  end.

Definition positive (r : R) : Prop := 0 < r.

(** The sphere of the specification: the area of the sphere of a given
    volume, with the mathematical constant [PI]. *)
Definition sphere_radius (volume : R) : R := Rcbrt (volume / (4 / 3 * PI)).
Definition sphere_area (volume : R) : R := 4 * PI * sphere_radius volume ^ 2.

(** The volume of the sphere of radius [r] for the program's value of pi;
    the radii 1 and 100 give the balances of the examples. *)
Definition ball_volume (r : R) : R := 4 / 3 * 3.14159 * r ^ 3.
Definition unit_volume : R := 4 / 3 * 3.14159.
Definition big_volume : R := ball_volume 100.

(** A run of the 1.0.1 simulation: one update per time stamp. *)
Fixpoint run101 (times : list number) (st : SourceAccount * V101.Environment)
    : SourceAccount * V101.Environment :=
  match times with
  | [] => st
  | t :: rest => run101 rest (V101.updateSourceAndEnvironment (fst st) (snd st) t)
  end.

(** A run of the 1.0.2 simulation, threading the random generator. *)
Fixpoint run102 (times : list number) (st : SourceAccount * V102.Environment * rng)
    : SourceAccount * V102.Environment * rng :=
  match times with
  | [] => st
  | t :: rest =>
      let '(source, environment, g) := st in
      run102 rest (V102.updateSourceAndEnvironment source environment t g)
  end.

(** ** Other functions of the two files *)

(** [Math.sqrt], [Math.exp] and [Math.PI]. *)
Definition Math_sqrt (a : number) : number :=
  match a with
  | Fin x => match Rsgn x with Lt => NaN | _ => Fin (sqrt x) end
  | PInf => PInf
  | _ => NaN
  end.

Definition Math_exp (a : number) : number :=
  match a with
  | Fin x => Fin (exp x)
  | PInf => PInf
  | NInf => Fin 0
  | NaN => NaN
  end.

Definition Math_PI : number := Fin PI.

(** [maxwellBoltzmannProbability] of 1.0.2. *)
Definition maxwellBoltzmannProbability (energy temperature : number) : number :=
  (Math_sqrt (energy / (Math_PI * Math_pow temperature (Fin 3)))
   * Math_exp (neg energy / temperature))%num.

(** JavaScript's [a > 0]. *)
Definition gt_zero (a : number) : bool :=
  match a with
  | Fin r => match Rsgn r with Gt => true | _ => false end
  | PInf => true
  | _ => false
  end.

(** [generateNewFilename] of 1.0.2, on strings.  [iso] is the value of
    [new Date().toISOString()] at the call. *)
Module Filename.
Import Ascii String.
Local Open Scope string_scope.

(** [s.split(sep)] for a one-character separator: never an empty array. *)
Fixpoint str_split (sep : ascii) (s : string) : list string :=
  match s with
  | EmptyString => [EmptyString]
  | String c rest =>
      if Ascii.eqb c sep then EmptyString :: str_split sep rest
      else match str_split sep rest with
           | first :: others => String c first :: others
           | [] => [String c EmptyString]
           end
  end.

(** [parts.join(sep)] *)
Fixpoint str_join (sep : string) (parts : list string) : string :=
  match parts with
  | [] => EmptyString
  | [only] => only
  | first :: others => first ++ sep ++ str_join sep others
  end.

(** [s.replace(/c/g, d)] for characters [c] and [d]. *)
Fixpoint str_replace_all (c d : ascii) (s : string) : string :=
  match s with
  | EmptyString => EmptyString
  | String x rest =>
      String (if Ascii.eqb x c then d else x) (str_replace_all c d rest)
  end.

(** [a.slice(0, -1)] and [a.pop()]; the latter is [undefined] on an empty
    array, which a template literal prints as the word undefined. *)
Definition slice_but_last (a : list string) : list string := removelast a.
Definition pop (a : list string) : string := last a "undefined".

Fixpoint contains (c : ascii) (s : string) : bool :=
  match s with
  | EmptyString => false
  | String x rest => Ascii.eqb x c || contains c rest
  end.

Definition generateNewFilename (filePath iso : string) : string :=
  let baseName := str_join "." (slice_but_last (str_split "." filePath)) in
  let extension := pop (str_split "." filePath) in
  let timestamp := str_replace_all ":" "-" iso in
  baseName ++ "_" ++ timestamp ++ "." ++ extension.

End Filename.

(** ** The simulation loop of 1.0.2

    The part of [main] that runs after the overwrite checks: the source and
    the environment are created, then the [while] loop runs batches of up to
    ten updates, each batch followed by [logData].  [Date.now()] reads a
    clock, the sequence of the readings still to come; [stop j] tells whether
    the return key was pressed before the [j]-th test of the [while]
    condition.  Each of the two CSV files is the sequence of the arguments
    passed to the [write] of its streams, in order. *)

Definition clock : Type := nat -> R.

Definition Date_now (c : clock) : number * clock :=
  (Fin (c 0%nat), fun n => c (S n)).

Record Row : Type := mkRow {
  row_time : number;
  row_source : number;
  row_environment : number
}.

(** What is written to the data file: the header
    [['Time', 'Source Balance', 'Environment Balance']], a row of [csvData],
    or the string made of a newline. *)
Inductive DataWrite : Type :=
| DHeader
| DRow (row : Row)
| DNewline.

(** What is written to the level file: the header [['Level', 'Balance']],
    a row [[index + 1, balance]], or the string made of a newline. *)
Inductive LevelWrite : Type :=
| LHeader
| LRow (level : nat) (balance : number)
| LNewline.

Record Sim : Type := mkSim {
  sim_source : SourceAccount;
  sim_environment : V102.Environment;
  sim_rng : rng;
  sim_clock : clock;
  csvData : list Row;
  iterationCount : nat;
  headersWritten : bool;
  levelHeadersWritten : bool;
  csvFile : list DataWrite;
  levelFile : list LevelWrite
}.

(** One pass of the body of the [for] loop. *)
Definition tick (st : Sim) : Sim :=
  let '(currentTime, c) := Date_now (sim_clock st) in
  let '(source, environment, g) :=
    V102.updateSourceAndEnvironment (sim_source st) (sim_environment st)
      currentTime (sim_rng st) in
  {| sim_source := source;
     sim_environment := environment;
     sim_rng := g;
     sim_clock := c;
     csvData := csvData st
                ++ [mkRow currentTime (balance source) (V102.env_balance environment)];
     iterationCount := S (iterationCount st);
     headersWritten := headersWritten st;
     levelHeadersWritten := levelHeadersWritten st;
     csvFile := csvFile st;
     levelFile := levelFile st |}.

(** [for (let i = 0; i < 10 && source.balance > 0; i++)], [remaining]
    being [10 - i]. *)
Fixpoint batch (remaining : nat) (st : Sim) : Sim :=
  match remaining with
  | O => st
  | S r => if gt_zero (balance (sim_source st)) then batch r (tick st) else st
  end.

(** [csvData.forEach(row => { write(row); write('\n') })] *)
Definition data_writes (rows : list Row) : list DataWrite :=
  flat_map (fun row => [DRow row; DNewline]) rows.

(** [environment.levels.forEach((balance, index) =>
    { write([index + 1, balance]); write('\n') })] *)
Fixpoint level_writes (index : nat) (levels : list number) : list LevelWrite :=
  match levels with
  | [] => []
  | balance :: rest =>
      LRow (index + 1) balance :: LNewline :: level_writes (S index) rest
  end.

Definition logData (st : Sim) : Sim :=
  {| sim_source := sim_source st;
     sim_environment := sim_environment st;
     sim_rng := sim_rng st;
     sim_clock := sim_clock st;
     csvData := [];
     iterationCount := iterationCount st;
     headersWritten := true;
     levelHeadersWritten := true;
     csvFile := csvFile st
                ++ (if headersWritten st then [] else [DHeader])
                ++ data_writes (csvData st);
     levelFile := levelFile st
                  ++ (if levelHeadersWritten st then [] else [LHeader])
                  ++ level_writes 0 (V102.levels (sim_environment st)) |}.

(** [while (simulationRunning && source.balance > 0)]: [None] when the
    fuel runs out before the loop ends. *)
Fixpoint main_loop (fuel : nat) (stop : nat -> bool) (j : nat) (st : Sim) : option Sim :=
  match fuel with
  | O => None
  | S f =>
      if negb (stop j) && gt_zero (balance (sim_source st))
      then main_loop f stop (S j) (logData (batch 10 st))
      else Some st
  end.

(** The state at the first test of the [while] condition: [Date.now()] is
    read by [initializeSourceAccount], for [currentTime] and for [startTime]. *)
Definition main_start (c : clock) (g : rng) : Sim :=
  let '(now, c) := Date_now c in
  let source := V102.initializeSourceAccount (Fin 1000) now in
  let environment := V102.initializeEnvironment in
  let '(currentTime, c) := Date_now c in
  let '(startTime, c) := Date_now c in
  {| sim_source := source;
     sim_environment := environment;
     sim_rng := g;
     sim_clock := c;
     csvData := [];
     iterationCount := 0;
     headersWritten := false;
     levelHeadersWritten := false;
     csvFile := [];
     levelFile := [] |}.

(** The series of the first chart, read from [csvData] after the loop. *)
Definition timeStamps (st : Sim) : list number := map row_time (csvData st).
Definition sourceBalanceData (st : Sim) : list number := map row_source (csvData st).
Definition environmentBalanceData (st : Sim) : list number :=
  map row_environment (csvData st).

(** The data file and the pending rows in the loop of [main]: nothing
    before the first [logData]; afterwards the header once, then every row
    logged so far, each followed by a newline record. *)
Definition file_inv (st : Sim) : Prop :=
  exists rows : list Row,
    iterationCount st = (length rows + length (csvData st))%nat
    /\ ((headersWritten st = false /\ rows = [] /\ csvFile st = [])
        \/ (headersWritten st = true /\ csvFile st = DHeader :: data_writes rows)).

(** The level file after [logs] calls of [logData]: nothing before the
    first call; afterwards the header once and, for each call, the 100
    levels, each followed by a newline record. *)
Definition level_file_inv (logs : nat) (st : Sim) : Prop :=
  length (V102.levels (sim_environment st)) = 100%nat
  /\ ((levelHeadersWritten st = false /\ logs = 0%nat /\ levelFile st = [])
      \/ (levelHeadersWritten st = true
          /\ length (levelFile st) = (1 + 200 * logs)%nat)).

(** A number that is [Infinity] or a non-negative real: not NaN and not
    negative. *)
Definition nonneg_or_infinite (v : number) : Prop :=
  v = PInf \/ exists r : R, v = Fin r /\ 0 <= r.

(** * Properties *)

(** ** Signs *)

Lemma Rsgn_pos (r : R) : 0 < r -> Rsgn r = Gt.
Proof.
  intros H. unfold Rsgn. destruct (total_order_T r 0) as [[Hlt | Heq] | Hgt];
    [lra | lra | reflexivity].
Qed.

Lemma Rsgn_neg (r : R) : r < 0 -> Rsgn r = Lt.
Proof.
  intros H. unfold Rsgn. destruct (total_order_T r 0) as [[Hlt | Heq] | Hgt];
    [reflexivity | lra | lra].
Qed.

Lemma Rsgn_zero : Rsgn 0 = Eq.
Proof.
  unfold Rsgn. destruct (total_order_T 0 0) as [[Hlt | Heq] | Hgt];
    [lra | reflexivity | lra].
Qed.

Lemma Rsgn_cases (r : R) :
  (r < 0 /\ Rsgn r = Lt) \/ (r = 0 /\ Rsgn r = Eq) \/ (0 < r /\ Rsgn r = Gt).
Proof.
  destruct (total_order_T r 0) as [[Hlt | Heq] | Hgt].
  - left. split; [assumption | now apply Rsgn_neg].
  - right; left. subst r. split; [reflexivity | apply Rsgn_zero].
  - right; right. split; [assumption | now apply Rsgn_pos].
Qed.

(** ** Arithmetic on finite numbers *)

Lemma add_Fin (x y : R) : (Fin x + Fin y)%num = Fin (x + y).
Proof. reflexivity. Qed.

Lemma sub_Fin (x y : R) : (Fin x - Fin y)%num = Fin (x - y).
Proof. reflexivity. Qed.

Lemma mul_Fin (x y : R) : (Fin x * Fin y)%num = Fin (x * y).
Proof. reflexivity. Qed.

Lemma div_Fin (x y : R) : y <> 0 -> (Fin x / Fin y)%num = Fin (x / y).
Proof.
  intros Hy. unfold div.
  destruct (Rsgn_cases y) as [[_ ->] | [[H0 _] | [_ ->]]];
    [reflexivity | contradiction | reflexivity].
Qed.

Create Rewrite HintDb fin_arith.
#[local] Hint Rewrite add_Fin sub_Fin mul_Fin : fin_arith.

(** ** Integral exponents *)

Lemma Int_part_IZR (z : Z) : Int_part (IZR z) = z.
Proof.
  symmetry. apply Int_part_spec. split; lra.
Qed.

Lemma is_integral_IZR (z : Z) : is_integral (IZR z) = true.
Proof.
  unfold is_integral. rewrite Int_part_IZR.
  destruct (Req_dec_T (IZR z) (IZR z)); [reflexivity | contradiction].
Qed.

Lemma is_integral_true (y : R) : is_integral y = true -> y = IZR (Int_part y).
Proof.
  unfold is_integral. destruct (Req_dec_T y (IZR (Int_part y))); [trivial | discriminate].
Qed.

Lemma powerRZ_of_nat (x : R) (n : nat) : powerRZ x (Z.of_nat n) = x ^ n.
Proof.
  symmetry. apply pow_powerRZ.
Qed.

(** [Math.pow(x, n)] for a positive integer literal [n] is the n-th power. *)
Lemma Math_pow_pos_int (x : R) (n : nat) :
  (0 < n)%nat -> Math_pow (Fin x) (Fin (INR n)) = Fin (x ^ n).
Proof.
  intros Hn. unfold Math_pow.
  assert (Hpos : 0 < INR n) by (apply lt_0_INR; assumption).
  rewrite (Rsgn_pos _ Hpos).
  destruct (Rsgn_cases x) as [[Hx ->] | [[Hx ->] | [Hx ->]]].
  - rewrite INR_IZR_INZ, is_integral_IZR, Int_part_IZR. now rewrite powerRZ_of_nat.
  - subst x. rewrite pow_ne_zero by lia. reflexivity.
  - rewrite INR_IZR_INZ, is_integral_IZR, Int_part_IZR. now rewrite powerRZ_of_nat.
Qed.

Lemma Math_pow_2 (x : R) : Math_pow (Fin x) (Fin 2) = Fin (x ^ 2).
Proof.
  replace 2 with (INR 2) by (simpl; lra). apply Math_pow_pos_int. lia.
Qed.

Lemma Math_pow_4 (x : R) : Math_pow (Fin x) (Fin 4) = Fin (x ^ 4).
Proof.
  replace 4 with (INR 4) by (simpl; lra). apply Math_pow_pos_int. lia.
Qed.

(** ** The emission model on finite arguments *)

Lemma calculateSurfaceArea_Fin (v : R) :
  calculateSurfaceArea (Fin v) = Fin (area_R v).
Proof.
  unfold calculateSurfaceArea, area_R. cbv zeta.
  rewrite (div_Fin 4 3) by lra. rewrite !mul_Fin.
  rewrite div_Fin by lra. cbn [Math_cbrt].
  rewrite Math_pow_2. reflexivity.
Qed.

Lemma calculateEmissionRate102_Fin (a b : R) :
  V102.calculateEmissionRate (Fin a) (Fin b)
  = Fin (5.670374419e-8 * a * b ^ 4 / 4.65e20).
Proof.
  unfold V102.calculateEmissionRate, STEFAN_BOLTZMAN_CONSTANT.
  rewrite Math_pow_4. autorewrite with fin_arith. rewrite div_Fin by lra. reflexivity.
Qed.

Lemma calculateEmissionRate101_eq (a t b : number) :
  V101.calculateEmissionRate a t b = V102.calculateEmissionRate a t.
Proof. reflexivity. Qed.

Example surfaceArea_of_zero : calculateSurfaceArea (Fin 0) = Fin 0.
Proof. rewrite calculateSurfaceArea_Fin. f_equal. unfold area_R.
  replace (0 / (4 / 3 * 3.14159)) with 0 by lra.
  unfold Rcbrt. rewrite Rsgn_zero. ring.
Qed.

Example surfaceArea_of_NaN : calculateSurfaceArea NaN = NaN.
Proof.
  unfold calculateSurfaceArea. cbv zeta. rewrite (div_Fin 4 3) by lra.
  cbn [mul div Math_cbrt]. unfold Math_pow. rewrite (Rsgn_pos 2) by lra. reflexivity.
Qed.

Example emissionRate_of_infinite_balance :
  V102.calculateEmissionRate (calculateSurfaceArea PInf) PInf = PInf.
Proof.
  unfold calculateSurfaceArea, V102.calculateEmissionRate, STEFAN_BOLTZMAN_CONSTANT.
  cbv zeta. rewrite (div_Fin 4 3) by lra. rewrite mul_Fin.
  unfold div at 1. rewrite Rsgn_pos by lra. cbn [Math_cbrt].
  unfold Math_pow. rewrite (Rsgn_pos 2), (Rsgn_pos 4) by lra.
  unfold mul. rewrite !Rsgn_pos by lra.
  unfold div. rewrite Rsgn_pos by lra. reflexivity.
Qed.

(** The amount moved by one update, the same expression in both versions. *)
Lemma emissionAmount_Fin (s : SourceAccount) (b dt : R) :
  balance s = Fin b ->
  V101.calculateEmissionAmount s (Fin dt) = Fin (rate_R b * dt).
Proof.
  intros Hb. unfold V101.calculateEmissionAmount. rewrite Hb.
  rewrite calculateEmissionRate101_eq, calculateSurfaceArea_Fin,
    calculateEmissionRate102_Fin.
  reflexivity.
Qed.

Lemma elapsedTime_Fin (tc t0 : R) :
  ((Fin tc - Fin t0) / Fin 1000)%num = Fin ((tc - t0) / 1000).
Proof.
  rewrite sub_Fin. apply div_Fin. lra.
Qed.

(** The two balances after an update of 1.0.1. *)
Lemma update101_balances (s : SourceAccount) (e : V101.Environment) (t : number) :
  let amount :=
    V101.calculateEmissionAmount s ((t - lastUpdateTime s) / Fin 1000)%num in
  balance (fst (V101.updateSourceAndEnvironment s e t)) = (balance s - amount)%num
  /\ V101.env_balance (snd (V101.updateSourceAndEnvironment s e t))
     = (V101.env_balance e + amount)%num.
Proof. split; reflexivity. Qed.

(** The two balances after an update of 1.0.2: the same as in 1.0.1,
    whatever the random draws. *)
Lemma update102_balances (s : SourceAccount) (e : V102.Environment) (t : number)
    (g : rng) :
  let amount :=
    V101.calculateEmissionAmount s ((t - lastUpdateTime s) / Fin 1000)%num in
  balance (fst (fst (V102.updateSourceAndEnvironment s e t g)))
  = (balance s - amount)%num
  /\ V102.env_balance (snd (fst (V102.updateSourceAndEnvironment s e t g)))
     = (V102.env_balance e + amount)%num.
Proof.
  unfold V102.updateSourceAndEnvironment.
  destruct (V102.kappaRandom V102.KAPPA 100 g) as [levelDistribution g'].
  split; reflexivity.
Qed.

Lemma update102_source (s : SourceAccount) (e : V102.Environment) (t : number)
    (g : rng) :
  fst (fst (V102.updateSourceAndEnvironment s e t g))
  = fst (V101.updateSourceAndEnvironment s (V101.mkEnvironment (V102.env_balance e)) t).
Proof.
  unfold V102.updateSourceAndEnvironment.
  destruct (V102.kappaRandom V102.KAPPA 100 g) as [levelDistribution g'].
  reflexivity.
Qed.

(** On finite data an update is an exact transfer of [rate_R b * dt]. *)
Lemma update101_Fin (s : SourceAccount) (e : V101.Environment) (b t0 eb tc : R) :
  balance s = Fin b -> lastUpdateTime s = Fin t0 -> V101.env_balance e = Fin eb ->
  balance (fst (V101.updateSourceAndEnvironment s e (Fin tc)))
  = Fin (b - rate_R b * ((tc - t0) / 1000))
  /\ V101.env_balance (snd (V101.updateSourceAndEnvironment s e (Fin tc)))
     = Fin (eb + rate_R b * ((tc - t0) / 1000)).
Proof.
  intros Hb Ht He.
  destruct (update101_balances s e (Fin tc)) as [-> ->].
  rewrite Ht, elapsedTime_Fin, (emissionAmount_Fin s b _ Hb), Hb, He.
  split; reflexivity.
Qed.

Lemma update102_Fin (s : SourceAccount) (e : V102.Environment) (g : rng)
    (b t0 eb tc : R) :
  balance s = Fin b -> lastUpdateTime s = Fin t0 -> V102.env_balance e = Fin eb ->
  balance (fst (fst (V102.updateSourceAndEnvironment s e (Fin tc) g)))
  = Fin (b - rate_R b * ((tc - t0) / 1000))
  /\ V102.env_balance (snd (fst (V102.updateSourceAndEnvironment s e (Fin tc) g)))
     = Fin (eb + rate_R b * ((tc - t0) / 1000)).
Proof.
  intros Hb Ht He.
  destruct (update102_balances s e (Fin tc) g) as [-> ->].
  rewrite Ht, elapsedTime_Fin, (emissionAmount_Fin s b _ Hb), Hb, He.
  split; reflexivity.
Qed.

Lemma is_finite_inv (a : number) : is_finite a -> exists r, a = Fin r.
Proof.
  destruct a; simpl; intros H; [eauto | contradiction ..].
Qed.

Lemma update101_lastUpdateTime (s : SourceAccount) (e : V101.Environment) (t : number) :
  lastUpdateTime (fst (V101.updateSourceAndEnvironment s e t)) = t.
Proof. reflexivity. Qed.

Lemma update102_lastUpdateTime (s : SourceAccount) (e : V102.Environment) (t : number)
    (g : rng) :
  lastUpdateTime (fst (fst (V102.updateSourceAndEnvironment s e t g))) = t.
Proof. rewrite update102_source. reflexivity. Qed.

(** ** The cube root *)

Lemma Rcbrt_0 : Rcbrt 0 = 0.
Proof. unfold Rcbrt. now rewrite Rsgn_zero. Qed.

Lemma Rcbrt_1 : Rcbrt 1 = 1.
Proof.
  unfold Rcbrt. rewrite Rsgn_pos by lra.
  unfold Rpower. rewrite ln_1, Rmult_0_r. apply exp_0.
Qed.

Lemma Rcbrt_pos (x : R) : 0 < x -> 0 < Rcbrt x.
Proof.
  intros Hx. unfold Rcbrt. rewrite Rsgn_pos by assumption.
  unfold Rpower. apply exp_pos.
Qed.

Lemma Rcbrt_opp (x : R) : Rcbrt (- x) = - Rcbrt x.
Proof.
  unfold Rcbrt.
  destruct (Rsgn_cases x) as [[Hx ->] | [[Hx ->] | [Hx ->]]].
  - rewrite Rsgn_pos by lra. lra.
  - subst x. rewrite Ropp_0, Rsgn_zero. lra.
  - rewrite Rsgn_neg by lra. rewrite Ropp_involutive. reflexivity.
Qed.

Lemma Rpower_third_cube (x : R) : 0 < x -> Rpower x (/ 3) ^ 3 = x.
Proof.
  intros Hx.
  rewrite <- (Rpower_pow 3) by (unfold Rpower; apply exp_pos).
  rewrite Rpower_mult.
  replace (/ 3 * INR 3) with 1 by (simpl; lra).
  now apply Rpower_1.
Qed.

(** [Rcbrt] is a cube root on the whole real line. *)
Lemma Rcbrt_cube (x : R) : Rcbrt x ^ 3 = x.
Proof.
  unfold Rcbrt.
  destruct (Rsgn_cases x) as [[Hx ->] | [[Hx ->] | [Hx ->]]].
  - replace ((- Rpower (- x) (/ 3)) ^ 3) with (- (Rpower (- x) (/ 3) ^ 3)) by ring.
    rewrite Rpower_third_cube by lra. lra.
  - subst x. ring.
  - now apply Rpower_third_cube.
Qed.

Lemma Rcbrt_of_cube (r : R) : 0 < r -> Rcbrt (r ^ 3) = r.
Proof.
  intros Hr. unfold Rcbrt. rewrite Rsgn_pos by (apply pow_lt; assumption).
  rewrite <- (Rpower_pow 3) by assumption.
  rewrite Rpower_mult. replace (INR 3 * / 3) with 1 by (simpl; lra).
  now apply Rpower_1.
Qed.

Lemma Rcbrt_lt (x y : R) : 0 < x -> x < y -> Rcbrt x < Rcbrt y.
Proof.
  intros Hx Hxy. unfold Rcbrt. rewrite !Rsgn_pos by lra.
  apply Rlt_Rpower_l; lra.
Qed.

Lemma Rcbrt_neq_0 (x : R) : x <> 0 -> Rcbrt x <> 0.
Proof.
  intros Hx H0. apply Hx. rewrite <- (Rcbrt_cube x), H0. ring.
Qed.

(** ** Surface area and emission rate as real functions *)

Lemma pow2_pos (x : R) : x <> 0 -> 0 < x ^ 2.
Proof.
  intros Hx. replace (x ^ 2) with (Rsqr x) by (unfold Rsqr; ring).
  now apply Rsqr_pos_lt.
Qed.

Lemma area_R_0 : area_R 0 = 0.
Proof.
  unfold area_R. replace (0 / (4 / 3 * 3.14159)) with 0 by lra.
  rewrite Rcbrt_0. ring.
Qed.

Lemma area_R_opp (v : R) : area_R (- v) = area_R v.
Proof.
  unfold area_R.
  replace (- v / (4 / 3 * 3.14159)) with (- (v / (4 / 3 * 3.14159))) by lra.
  rewrite Rcbrt_opp. ring.
Qed.

Lemma area_R_pos (v : R) : v <> 0 -> 0 < area_R v.
Proof.
  intros Hv. unfold area_R.
  assert (Hc : Rcbrt (v / (4 / 3 * 3.14159)) <> 0).
  { apply Rcbrt_neq_0. intros H0. apply Hv.
    replace v with (v / (4 / 3 * 3.14159) * (4 / 3 * 3.14159)) by (field; lra).
    rewrite H0. ring. }
  assert (0 < Rcbrt (v / (4 / 3 * 3.14159)) ^ 2).
  { apply pow2_pos. exact Hc. }
  lra.
Qed.

Lemma area_R_nonneg (v : R) : 0 <= area_R v.
Proof.
  destruct (Req_dec_T v 0) as [-> | Hv].
  - rewrite area_R_0. lra.
  - left. now apply area_R_pos.
Qed.

Lemma area_R_unit : area_R unit_volume = 4 * 3.14159.
Proof.
  unfold area_R, unit_volume.
  replace (4 / 3 * 3.14159 / (4 / 3 * 3.14159)) with 1 by (field; lra).
  rewrite Rcbrt_1. ring.
Qed.

Lemma area_R_ball (r : R) : 0 < r -> area_R (ball_volume r) = 4 * 3.14159 * r ^ 2.
Proof.
  intros Hr. unfold area_R, ball_volume.
  replace (4 / 3 * 3.14159 * r ^ 3 / (4 / 3 * 3.14159)) with (r ^ 3) by (field; lra).
  now rewrite Rcbrt_of_cube.
Qed.

Lemma area_R_le (x y : R) : 0 < x -> x <= y -> area_R x <= area_R y.
Proof.
  intros Hx [Hxy | ->]; [| lra].
  unfold area_R.
  assert (Hlt : Rcbrt (x / (4 / 3 * 3.14159)) < Rcbrt (y / (4 / 3 * 3.14159))).
  { apply Rcbrt_lt.
    - apply Rdiv_lt_0_compat; lra.
    - apply Rmult_lt_compat_r; [apply Rinv_0_lt_compat; lra | assumption]. }
  assert (Hpos : 0 < Rcbrt (x / (4 / 3 * 3.14159))).
  { apply Rcbrt_pos. apply Rdiv_lt_0_compat; lra. }
  nra.
Qed.

Lemma rate_R_0 : rate_R 0 = 0.
Proof. unfold rate_R. rewrite area_R_0. lra. Qed.

Lemma pow4_pos (b : R) : b <> 0 -> 0 < b ^ 4.
Proof.
  intros Hb. replace (b ^ 4) with ((b ^ 2) ^ 2) by ring.
  apply pow2_pos. apply pow_nonzero. exact Hb.
Qed.

Lemma rate_R_pos (b : R) : b <> 0 -> 0 < rate_R b.
Proof.
  intros Hb. unfold rate_R.
  pose proof (area_R_pos b Hb) as Ha. pose proof (pow4_pos b Hb) as H4.
  apply Rdiv_lt_0_compat; [| lra].
  apply Rmult_lt_0_compat; [| assumption].
  apply Rmult_lt_0_compat; [lra | assumption].
Qed.

Lemma rate_R_nonneg (b : R) : 0 <= rate_R b.
Proof.
  destruct (Req_dec_T b 0) as [-> | Hb].
  - rewrite rate_R_0. lra.
  - left. now apply rate_R_pos.
Qed.

Lemma rate_R_lt (x y : R) : 0 < x -> x < y -> rate_R x < rate_R y.
Proof.
  intros Hx Hxy. unfold rate_R.
  assert (Ha : area_R x <= area_R y) by (apply area_R_le; lra).
  assert (Hax : 0 < area_R x) by (apply area_R_pos; lra).
  assert (H4 : x ^ 4 < y ^ 4).
  { replace (x ^ 4) with ((x * x) * (x * x)) by ring.
    replace (y ^ 4) with ((y * y) * (y * y)) by ring.
    assert (x * x < y * y) by nra. nra. }
  assert (H4x : 0 < x ^ 4) by (apply pow4_pos; lra).
  apply Rmult_lt_compat_r; [lra |].
  rewrite !Rmult_assoc. apply Rmult_lt_compat_l; [lra |].
  nra.
Qed.

Lemma rate_R_big :
  rate_R big_volume
  = 5.670374419e-8 * (4 * 3.14159 * 100 ^ 2) * big_volume ^ 4 / 4.65e20.
Proof. unfold rate_R, big_volume. rewrite area_R_ball by lra. reflexivity. Qed.

(** ** The source balance is not clamped *)




(** ** The stored emission rate *)

Lemma initial_emissionRate (x : R) (now : number) :
  emissionRate (V102.initializeSourceAccount (Fin x) now) = Fin (rate_R x)
  /\ emissionRate (V101.initializeSourceAccount (Fin x) now) = Fin (rate_R x).
Proof.
  unfold V102.initializeSourceAccount, V101.initializeSourceAccount. cbn [emissionRate].
  rewrite calculateEmissionRate101_eq, calculateSurfaceArea_Fin,
    calculateEmissionRate102_Fin.
  split; reflexivity.
Qed.

(** C9, counterexample.  A source of balance [big_volume] created at
    time 0 and updated at time 100000 ms keeps the rate of its construction,
    which is not the rate of its new, smaller balance. *)
Lemma emissionRate_is_stale :
  let s := V102.initializeSourceAccount (Fin big_volume) (Fin 0) in
  let s' := fst (fst (V102.updateSourceAndEnvironment s V102.initializeEnvironment
                        (Fin 100000) (const_rng (/ 2)))) in
  emissionRate s'
  <> V102.calculateEmissionRate (calculateSurfaceArea (balance s')) (balance s').
Proof.
  cbv zeta.
  destruct (update102_Fin (V102.initializeSourceAccount (Fin big_volume) (Fin 0))
              V102.initializeEnvironment (const_rng (/ 2)) big_volume 0 0 100000
              eq_refl eq_refl eq_refl) as [Hb _].
  rewrite Hb, calculateSurfaceArea_Fin, calculateEmissionRate102_Fin.
  rewrite update102_source. cbn [V101.updateSourceAndEnvironment fst emissionRate].
  destruct (initial_emissionRate big_volume (Fin 0)) as [-> _].
  set (b' := big_volume - rate_R big_volume * ((100000 - 0) / 1000)).
  assert (Hb' : 0 < b' < big_volume).
  { subst b'. rewrite rate_R_big. unfold big_volume, ball_volume. split; lra. }
  pose proof (rate_R_lt b' big_volume (proj1 Hb') (proj2 Hb')) as Hlt.
  intros Heq. injection Heq as Heq. unfold rate_R in Hlt at 1. lra.
Qed.

(** C9, as the code has it.  No update writes [emissionRate]: in both
    versions the field keeps its value through every update, so along any run
    it stays the rate computed at construction from [initialSupply]. *)
Theorem emissionRate_never_recomputed
    (s : SourceAccount) (e1 : V101.Environment) (e2 : V102.Environment)
    (t : number) (g : rng) (times : list number) (x now : number) :
  emissionRate (fst (V101.updateSourceAndEnvironment s e1 t)) = emissionRate s
  /\ emissionRate (fst (fst (V102.updateSourceAndEnvironment s e2 t g)))
     = emissionRate s
  /\ emissionRate (fst (run101 times (V101.initializeSourceAccount x now, e1)))
     = V101.calculateEmissionRate (calculateSurfaceArea x) x x
  /\ emissionRate (fst (fst (run102 times (V102.initializeSourceAccount x now, e2, g))))
     = V102.calculateEmissionRate (calculateSurfaceArea x) x.
Proof.
  assert (H102 : forall s e t g,
             emissionRate (fst (fst (V102.updateSourceAndEnvironment s e t g)))
             = emissionRate s).
  { intros. rewrite update102_source. reflexivity. }
  split; [reflexivity | split; [apply H102 | split]].
  - assert (Hrun : forall ts st, emissionRate (fst (run101 ts st)) = emissionRate (fst st)).
    { induction ts as [| t' ts IH]; intros st; [reflexivity |].
      cbn [run101]. rewrite IH. reflexivity. }
    rewrite Hrun. reflexivity.
  - assert (Hrun : forall ts st,
               emissionRate (fst (fst (run102 ts st))) = emissionRate (fst (fst st))).
    { induction ts as [| t' ts IH]; intros [[s0 e0] g0]; [reflexivity |].
      cbn [run102]. rewrite IH. apply H102. }
    rewrite Hrun. reflexivity.
Qed.

(** ** Surface area of a non-positive volume *)

(** C7, counterexample.  For the negative volume [- unit_volume] the
    function returns the ordinary positive area 4 * 3.14159. *)
Lemma surfaceArea_of_negative_volume :
  - unit_volume <= 0
  /\ calculateSurfaceArea (Fin (- unit_volume)) = Fin (4 * 3.14159)
  /\ 0 < 4 * 3.14159.
Proof.
  split; [unfold unit_volume; lra | split; [| lra]].
  rewrite calculateSurfaceArea_Fin, area_R_opp, area_R_unit. reflexivity.
Qed.

(** ** Surface area and the sphere *)

(** The program's constant is a truncation of the mathematical one. *)
Lemma PI_above_code_constant : 3.14159 < PI.
Proof.
  pose proof (PI_2_3_7_ineq 2) as [Hlow _].
  unfold sum_f_R0, tg_alt, PI_2_3_7_tg, Ratan_seq in Hlow.
  simpl in Hlow. lra.
Qed.

(** With the truncated constant the computed area of a positive volume is
    below the area of the sphere. *)
Lemma area_R_below_sphere_area (v : R) : 0 < v -> area_R v < sphere_area v.
Proof.
  intros Hv. pose proof PI_above_code_constant as Hpi.
  unfold area_R, sphere_area, sphere_radius.
  set (a := Rcbrt (v / (4 / 3 * 3.14159))).
  set (A := Rcbrt (v / (4 / 3 * PI))).
  assert (Hq1 : 0 < v / (4 / 3 * PI)) by (apply Rdiv_lt_0_compat; lra).
  assert (Hq2 : v / (4 / 3 * PI) < v / (4 / 3 * 3.14159)).
  { apply Rmult_lt_compat_l; [assumption |].
    apply Rinv_lt_contravar; nra. }
  assert (HA : 0 < A) by (apply Rcbrt_pos; assumption).
  assert (HAa : A < a) by (apply Rcbrt_lt; assumption).
  assert (Ha3 : 3.14159 * a ^ 3 = v / (4 / 3)).
  { subst a. rewrite Rcbrt_cube. lra. }
  assert (HA3 : PI * A ^ 3 = v / (4 / 3)).
  { subst A. rewrite Rcbrt_cube. field. lra. }
  assert (Hcube : 3.14159 * a ^ 2 * a = PI * A ^ 2 * A).
  { transitivity (v / (4 / 3)); [rewrite <- Ha3 | rewrite <- HA3]; ring. }
  assert (HPA : 0 < PI * A ^ 2) by (apply Rmult_lt_0_compat; [lra | nra]).
  destruct (Rlt_le_dec (3.14159 * a ^ 2) (PI * A ^ 2)) as [Hlt | Hge]; [lra |].
  exfalso.
  assert (PI * A ^ 2 * A < 3.14159 * a ^ 2 * a).
  { apply Rlt_le_trans with (PI * A ^ 2 * a).
    - apply Rmult_lt_compat_l; assumption.
    - apply Rmult_le_compat_r; lra. }
  lra.
Qed.

(** C6, counterexample.  At the positive volume [unit_volume] the program
    returns 4 * 3.14159, which is not the area of the sphere of that volume
    computed with the mathematical constant. *)
Lemma surfaceArea_is_not_sphere_area :
  0 < unit_volume
  /\ calculateSurfaceArea (Fin unit_volume) = Fin (4 * 3.14159)
  /\ calculateSurfaceArea (Fin unit_volume) <> Fin (sphere_area unit_volume).
Proof.
  assert (Hu : 0 < unit_volume) by (unfold unit_volume; lra).
  split; [exact Hu | split].
  - rewrite calculateSurfaceArea_Fin, area_R_unit. reflexivity.
  - rewrite calculateSurfaceArea_Fin. intros Heq. injection Heq as Heq.
    pose proof (area_R_below_sphere_area unit_volume Hu). lra.
Qed.

(** ** Powers of a draw *)

Lemma Math_pow_pos_base (u y : R) :
  0 < u -> y <> 0 -> Math_pow (Fin u) (Fin y) = Fin (Rpower u y).
Proof.
  intros Hu Hy. unfold Math_pow. rewrite (Rsgn_pos u Hu).
  assert (Hcase : (if is_integral y then Fin (powerRZ u (Int_part y))
                   else Fin (Rpower u y)) = Fin (Rpower u y)).
  { destruct (is_integral y) eqn:Hint; [| reflexivity].
    apply is_integral_true in Hint.
    rewrite powerRZ_Rpower by assumption. now rewrite <- Hint. }
  destruct (Rsgn_cases y) as [[_ ->] | [[H0 _] | [_ ->]]];
    [exact Hcase | contradiction | exact Hcase].
Qed.

Lemma Math_pow_zero_base (y : R) : y < 0 -> Math_pow (Fin 0) (Fin y) = PInf.
Proof.
  intros Hy. unfold Math_pow. now rewrite (Rsgn_neg y Hy), Rsgn_zero.
Qed.

Lemma Rpower_gt_1 (u y : R) : 0 < u < 1 -> y < 0 -> 1 < Rpower u y.
Proof.
  intros [Hu0 Hu1] Hy. unfold Rpower.
  assert (Hln : ln u < 0) by (rewrite <- ln_1; apply ln_increasing; lra).
  assert (Hprod : 0 < y * ln u) by nra.
  pose proof (exp_ineq1 (y * ln u)) as Hexp.
  assert (y * ln u <> 0) by lra. specialize (Hexp H). lra.
Qed.

(** ** The sampler on draws strictly between 0 and 1 *)

Lemma draws_nonzero_skip (n : nat) (g : rng) : draws_nonzero g -> draws_nonzero (skip n g).
Proof. intros Hg i. apply Hg. Qed.

Lemma kappaRandom_S (kappa : number) (n : nat) (g : rng) :
  V102.kappaRandom kappa (S n) g
  = let x := (Math_pow (Fin (g 0%nat)) (Fin (-1) / kappa) - Fin 1)%num in
    let y := (Math_pow (Fin (g 1%nat)) (Fin (-1) / kappa) - Fin 1)%num in
    let z := (Math_pow (Fin (g 2%nat)) (Fin (-1) / kappa) - Fin 1)%num in
    (((x + y + z) / Fin 3)%num :: fst (V102.kappaRandom kappa n (skip 3 g)),
     snd (V102.kappaRandom kappa n (skip 3 g))).
Proof.
  cbn [V102.kappaRandom Math_random].
  change (fun n0 : nat => g (S (S (S n0)))) with (skip 3 g).
  destruct (V102.kappaRandom kappa n (skip 3 g)) as [values g']. reflexivity.
Qed.

Section PositiveKappa.

Variable k : R.
Hypothesis k_pos : 0 < k.

(** The exponent [-1 / kappa] of the transform is a negative real. *)
Lemma exponent_Fin : (Fin (-1) / Fin k)%num = Fin (-1 / k) /\ -1 / k < 0.
Proof.
  split.
  - apply div_Fin. lra.
  - apply Ropp_lt_cancel. rewrite Ropp_0.
    replace (- (-1 / k)) with (/ k) by (field; lra).
    now apply Rinv_0_lt_compat.
Qed.

Lemma sample_R_pos (u v w : R) :
  0 < u < 1 -> 0 < v < 1 -> 0 < w < 1 -> 0 < sample_R k u v w.
Proof.
  intros Hu Hv Hw. destruct exponent_Fin as [_ Hneg].
  pose proof (Rpower_gt_1 u _ Hu Hneg). pose proof (Rpower_gt_1 v _ Hv Hneg).
  pose proof (Rpower_gt_1 w _ Hw Hneg). unfold sample_R. lra.
Qed.

(** On such draws the sampler returns the reals [samples_R], all positive,
    and leaves a generator of the same kind. *)
Lemma kappaRandom_samples (n : nat) (g : rng) :
  draws_nonzero g ->
  fst (V102.kappaRandom (Fin k) n g) = map Fin (samples_R k n g)
  /\ Forall positive (samples_R k n g)
  /\ length (samples_R k n g) = n
  /\ draws_nonzero (snd (V102.kappaRandom (Fin k) n g)).
Proof.
  revert g. induction n as [| n IH]; intros g Hg.
  - cbn. split; [reflexivity | split; [apply Forall_nil | split; [reflexivity | exact Hg]]].
  - destruct (IH (skip 3 g) (draws_nonzero_skip 3 g Hg)) as (Hv & Hpos & Hlen & Hg').
    rewrite kappaRandom_S. cbv zeta. cbn [fst snd samples_R map length].
    destruct exponent_Fin as [-> Hneg].
    rewrite !Math_pow_pos_base by (try apply Hg; lra).
    rewrite !sub_Fin, !add_Fin. rewrite div_Fin by lra. rewrite Hv.
    split; [reflexivity | split; [| split; [now rewrite Hlen | exact Hg']]].
    apply Forall_cons; [| exact Hpos].
    apply sample_R_pos; apply Hg.
Qed.

End PositiveKappa.

(** ** Sums and normalisation *)





(** ** The levels after an update *)

Lemma array_replace_middle (pre : list number) (l v : number) (rest : list number) :
  array_replace (pre ++ l :: rest) (length pre) v = pre ++ v :: rest.
Proof.
  induction pre as [| p pre IH]; cbn; [reflexivity | now rewrite IH].
Qed.

Lemma array_get_middle (pre : list number) (l : number) (rest : list number) :
  array_get (pre ++ l :: rest) (length pre) = Some l.
Proof.
  unfold array_get. induction pre as [| p pre IH]; cbn; [reflexivity | exact IH].
Qed.

Lemma array_get_end (pre : list number) : array_get pre (length pre) = None.
Proof.
  unfold array_get. induction pre as [| p pre IH]; cbn; [reflexivity | exact IH].
Qed.

(** The [forEach] of the update walks the cells in index order: it adds the
    increments cell by cell, and appends NaN cells once past the end. *)
Lemma forEach_from_add_levels (amount : number) (a pre lv : list number) :
  forEach_from
    (fun lv val index =>
       array_set lv index (to_number (array_get lv index) + val * amount)%num)
    a (length pre) (pre ++ lv)
  = pre ++ add_levels lv (map (fun val => (val * amount)%num) a).
Proof.
  revert pre lv. induction a as [| val rest IH]; intros pre lv.
  - reflexivity.
  - cbn [forEach_from map add_levels]. destruct lv as [| l lv'].
    + rewrite app_nil_r. unfold array_set.
      rewrite Nat.ltb_irrefl, Nat.sub_diag, array_get_end. cbn [repeat app to_number].
      replace (S (length pre)) with (length (pre ++ [(NaN + val * amount)%num]))
        by (rewrite length_app; cbn; lia).
      rewrite <- (app_nil_r (pre ++ [(NaN + val * amount)%num])) at 2.
      rewrite IH. rewrite <- app_assoc. reflexivity.
    + unfold array_set.
      assert (Hlt : (length pre <? length (pre ++ l :: lv'))%nat = true).
      { apply Nat.ltb_lt. rewrite length_app. cbn. lia. }
      rewrite Hlt, array_get_middle, array_replace_middle. cbn [to_number].
      replace (S (length pre)) with (length (pre ++ [(l + val * amount)%num]))
        by (rewrite length_app; cbn; lia).
      replace (pre ++ (l + val * amount)%num :: lv')
        with ((pre ++ [(l + val * amount)%num]) ++ lv')
        by (rewrite <- app_assoc; reflexivity).
      rewrite IH. rewrite <- app_assoc. reflexivity.
Qed.

Lemma forEach_add_levels (amount : number) (a lv : list number) :
  forEach
    (fun lv val index =>
       array_set lv index (to_number (array_get lv index) + val * amount)%num) a lv
  = add_levels lv (map (fun val => (val * amount)%num) a).
Proof.
  unfold forEach. apply (forEach_from_add_levels amount a [] lv).
Qed.

(** The levels written by an update of 1.0.2, in terms of the sampler. *)
Lemma update102_levels (s : SourceAccount) (e : V102.Environment) (t : number)
    (g : rng) :
  let amount :=
    V101.calculateEmissionAmount s ((t - lastUpdateTime s) / Fin 1000)%num in
  let values := fst (V102.kappaRandom V102.KAPPA 100 g) in
  V102.levels (snd (fst (V102.updateSourceAndEnvironment s e t g)))
  = add_levels (V102.levels e)
      (map (fun val => (val * amount)%num)
         (map (fun val => (val / reduce_sum values)%num) values))
  /\ snd (V102.updateSourceAndEnvironment s e t g)
     = snd (V102.kappaRandom V102.KAPPA 100 g).
Proof.
  unfold V102.updateSourceAndEnvironment.
  destruct (V102.kappaRandom V102.KAPPA 100 g) as [levelDistribution g'].
  cbn [fst snd V102.levels]. rewrite forEach_add_levels. split; reflexivity.
Qed.

Lemma KAPPA_positive : V102.KAPPA = Fin 3.5 /\ 0 < 3.5.
Proof. split; [reflexivity | lra]. Qed.


(** ** A draw of exactly 0 *)

Lemma fold_add_PInf (rs : list R) :
  fold_left (fun sum val => (sum + val)%num) (map Fin rs) PInf = PInf.
Proof.
  induction rs as [| r rs IH]; [reflexivity | exact IH].
Qed.



(** The transform of one draw from the range of [Math.random]: infinite for
    the draw 0, finite otherwise. *)
Lemma transform_of_draw (u y : R) :
  0 <= u < 1 -> y < 0 ->
  (u = 0 /\ (Math_pow (Fin u) (Fin y) - Fin 1)%num = PInf)
  \/ (0 < u /\ (Math_pow (Fin u) (Fin y) - Fin 1)%num = Fin (Rpower u y - 1)).
Proof.
  intros [[Hu | Hu] Hu1] Hy.
  - right. split; [assumption |]. rewrite Math_pow_pos_base by lra. reflexivity.
  - left. subst u. split; [reflexivity |]. now rewrite Math_pow_zero_base.
Qed.

Lemma first_sample_infinite (k : R) (n : nat) (g : rng) :
  0 < k -> draws_in_range g ->
  g 0%nat = 0 \/ g 1%nat = 0 \/ g 2%nat = 0 ->
  fst (V102.kappaRandom (Fin k) (S n) g)
  = PInf :: fst (V102.kappaRandom (Fin k) n (skip 3 g)).
Proof.
  intros Hk Hg H0. rewrite kappaRandom_S. cbv zeta. cbn [fst].
  destruct (exponent_Fin k Hk) as [-> Hneg].
  destruct (transform_of_draw (g 0%nat) _ (Hg 0%nat) Hneg) as [[Hu ->] | [Hu ->]];
    destruct (transform_of_draw (g 1%nat) _ (Hg 1%nat) Hneg) as [[Hv ->] | [Hv ->]];
    destruct (transform_of_draw (g 2%nat) _ (Hg 2%nat) Hneg) as [[Hw ->] | [Hw ->]];
    cbn [sub add neg div]; rewrite ?(Rsgn_pos 3) by lra; try reflexivity.
  exfalso. lra.
Qed.

Lemma zero_first_in_range : draws_in_range zero_first.
Proof. intros [| n]; cbn; lra. Qed.

Lemma zero_first_tail_nonzero : draws_nonzero (skip 3 zero_first).
Proof. intros n. cbn. lra. Qed.

(** With [zero_first] the sampler of an update returns an infinite first
    sample, the divisor is infinite and the first weight is NaN. *)
Lemma zero_first_weights :
  let values := fst (V102.kappaRandom V102.KAPPA 100 zero_first) in
  exists rs : list R,
    values = PInf :: map Fin rs
    /\ reduce_sum values = PInf
    /\ map (fun val => (val / reduce_sum values)%num) values
       = NaN :: map (fun val => (val / PInf)%num) (map Fin rs).
Proof.
  destruct KAPPA_positive as [-> Hk]. cbv zeta.
  rewrite (first_sample_infinite 3.5 99 zero_first Hk zero_first_in_range
             (or_introl eq_refl)).
  destruct (kappaRandom_samples 3.5 Hk 99 _ zero_first_tail_nonzero) as (-> & _).
  exists (samples_R 3.5 99 (skip 3 zero_first)).
  assert (Htot : reduce_sum (PInf :: map Fin (samples_R 3.5 99 (skip 3 zero_first))) = PInf).
  { unfold reduce_sum. cbn [fold_left add]. apply fold_add_PInf. }
  rewrite Htot. split; [reflexivity | split; reflexivity].
Qed.

(** The first level after one update of a fresh state with [zero_first]. *)
Lemma zero_first_level (s : SourceAccount) (t : number) :
  exists rest : list number,
    V102.levels (snd (fst (V102.updateSourceAndEnvironment s V102.initializeEnvironment
                             t zero_first)))
    = NaN :: rest.
Proof.
  destruct (update102_levels s V102.initializeEnvironment t zero_first) as [-> _].
  destruct zero_first_weights as (rs & _ & _ & ->).
  unfold V102.initializeEnvironment. cbn [V102.levels].
  change (repeat (Fin 0) 100) with (Fin 0 :: repeat (Fin 0) 99).
  cbn [map add_levels]. eexists. f_equal.
Qed.

(** C8, counterexample.  [zero_first] is a sequence of draws in the range
    of [Math.random] whose first draw is 0: the first sample of the sampler is
    then infinite, and after one update of a fresh state the first level is
    NaN. *)
Lemma zero_draw_reaches_levels :
  let s := V102.initializeSourceAccount (Fin unit_volume) (Fin 0) in
  let st := V102.updateSourceAndEnvironment s V102.initializeEnvironment (Fin 1000)
              zero_first in
  draws_in_range zero_first
  /\ nth_error (fst (V102.kappaRandom V102.KAPPA 100 zero_first)) 0 = Some PInf
  /\ nth_error (V102.levels (snd (fst st))) 0 = Some NaN.
Proof.
  cbv zeta. split; [exact zero_first_in_range | split].
  - destruct zero_first_weights as (rs & -> & _). reflexivity.
  - destruct (zero_first_level (V102.initializeSourceAccount (Fin unit_volume) (Fin 0))
                (Fin 1000)) as [rest ->].
    reflexivity.
Qed.

(** ** The levels and the environment balance *)


(** * Further properties of the code *)

(** ** Runs of updates *)

Lemma update102_env_balance (s : SourceAccount) (e : V102.Environment) (t : number)
    (g : rng) :
  V102.env_balance (snd (fst (V102.updateSourceAndEnvironment s e t g)))
  = V101.env_balance
      (snd (V101.updateSourceAndEnvironment s (V101.mkEnvironment (V102.env_balance e)) t)).
Proof.
  destruct (update102_balances s e t g) as [_ ->].
  destruct (update101_balances s (V101.mkEnvironment (V102.env_balance e)) t) as [_ ->].
  reflexivity.
Qed.

Lemma run102_as_run101
    (times : list number) (s : SourceAccount) (e : V102.Environment) (g : rng) :
  fst (fst (run102 times (s, e, g)))
  = fst (run101 times (s, V101.mkEnvironment (V102.env_balance e)))
  /\ V102.env_balance (snd (fst (run102 times (s, e, g))))
     = V101.env_balance (snd (run101 times (s, V101.mkEnvironment (V102.env_balance e)))).
Proof.
  revert s e g. induction times as [| t times IH]; intros s e g.
  - split; reflexivity.
  - cbn [run101 run102 fst snd].
    pose proof (update102_source s e t g) as Hs.
    pose proof (update102_env_balance s e t g) as He.
    destruct (V102.updateSourceAndEnvironment s e t g) as [[s2 e2] g2].
    cbn [fst snd] in Hs, He.
    destruct (V101.updateSourceAndEnvironment s (V101.mkEnvironment (V102.env_balance e)) t)
      as [s1 [eb1]].
    cbn [fst snd V101.env_balance] in Hs, He. subst s1 eb1.
    apply IH.
Qed.

(** X4. Version 1.0.2 moves the same energy as version 1.0.1: along any
    run with the same time stamps, whatever the random draws and the levels,
    the source account and the environment balance of 1.0.2 are those of
    1.0.1 started from the same source and the same environment balance. *)
Theorem versions_agree_on_balances
    (times : list number) (s : SourceAccount) (e : V102.Environment) (g : rng) :
  let final101 := run101 times (s, V101.mkEnvironment (V102.env_balance e)) in
  let final102 := run102 times (s, e, g) in
  fst (fst final102) = fst final101
  /\ V102.env_balance (snd (fst final102)) = V101.env_balance (snd final101).
Proof.
  cbv zeta. apply run102_as_run101.
Qed.

(** ** The sampler on any generator *)

Lemma kappaRandom_shape (kappa : number) (n : nat) (g : rng) :
  length (fst (V102.kappaRandom kappa n g)) = n
  /\ forall i : nat, snd (V102.kappaRandom kappa n g) i = g (3 * n + i)%nat.
Proof.
  revert g. induction n as [| n IH]; intros g.
  - split; [reflexivity | intros i; reflexivity].
  - rewrite kappaRandom_S. cbv zeta. cbn [fst snd length].
    destruct (IH (skip 3 g)) as [Hlen Hrng]. split; [now rewrite Hlen |].
    intros i. rewrite Hrng. unfold skip. f_equal. lia.
Qed.

(** X7. Whatever the shape parameter and the draws, [kappaRandom] returns
    exactly [numSamples] values and consumes exactly three draws per value:
    the next draw after the call is draw number [3 * numSamples] of the
    generator it was given. *)
Theorem kappaRandom_length_and_draws (kappa : number) (numSamples : nat) (g : rng) :
  length (fst (V102.kappaRandom kappa numSamples g)) = numSamples
  /\ forall i : nat,
       snd (V102.kappaRandom kappa numSamples g) i = g (3 * numSamples + i)%nat.
Proof. apply kappaRandom_shape. Qed.

(** ** The length of the levels array *)

Lemma add_levels_length (lv incs : list number) :
  length (add_levels lv incs) = Nat.max (length lv) (length incs).
Proof.
  revert lv. induction incs as [| d ds IH]; intros lv.
  - cbn. now rewrite Nat.max_0_r.
  - destruct lv as [| l lv']; cbn [add_levels length]; rewrite IH; reflexivity.
Qed.

Lemma add_levels_beyond (lv incs : list number) (i : nat) :
  (length incs <= i)%nat -> nth_error (add_levels lv incs) i = nth_error lv i.
Proof.
  revert lv i. induction incs as [| d ds IH]; intros lv i Hi.
  - reflexivity.
  - destruct i as [| i]; [cbn in Hi; lia |].
    destruct lv as [| l lv']; cbn [add_levels nth_error length] in *.
    + rewrite IH by lia. now destruct i.
    + apply IH. lia.
Qed.

Lemma add_levels_new_cells (lv incs : list number) (i : nat) :
  (length lv <= i < length incs)%nat -> nth_error (add_levels lv incs) i = Some NaN.
Proof.
  revert lv i. induction incs as [| d ds IH]; intros lv i Hi.
  - cbn in Hi. lia.
  - destruct lv as [| l lv']; cbn [add_levels length] in *.
    + destruct i as [| i]; [reflexivity |]. cbn [nth_error]. apply IH. cbn. lia.
    + destruct i as [| i]; [lia |]. cbn [nth_error]. apply IH. lia.
Qed.

(** X9. Whatever the state and the draws, an update of 1.0.2 leaves an
    array of max (length, 100) levels: cells from index 100 on are untouched,
    and when the array had fewer than 100 cells it is extended to 100, the
    cells past its old end being NaN. *)
Theorem update_levels_length
    (s : SourceAccount) (e : V102.Environment) (t : number) (g : rng) :
  let levels' := V102.levels (snd (fst (V102.updateSourceAndEnvironment s e t g))) in
  length levels' = Nat.max (length (V102.levels e)) 100
  /\ (forall i : nat, (100 <= i)%nat -> nth_error levels' i = nth_error (V102.levels e) i)
  /\ (forall i : nat,
        (length (V102.levels e) <= i < 100)%nat -> nth_error levels' i = Some NaN).
Proof.
  cbv zeta. destruct (update102_levels s e t g) as [-> _].
  set (incs := map _ (map _ _)).
  assert (Hlen : length incs = 100%nat).
  { subst incs. rewrite !length_map. apply kappaRandom_shape. }
  split; [| split].
  - now rewrite add_levels_length, Hlen.
  - intros i Hi. apply add_levels_beyond. lia.
  - intros i Hi. apply add_levels_new_cells. lia.
Qed.

(** ** The Maxwell-Boltzmann function *)

Lemma Math_pow_3 (x : R) : Math_pow (Fin x) (Fin 3) = Fin (x ^ 3).
Proof.
  replace 3 with (INR 3) by (simpl; lra). apply Math_pow_pos_int. lia.
Qed.

Lemma Math_sqrt_negative (x : R) : x < 0 -> Math_sqrt (Fin x) = NaN.
Proof.
  intros Hx. unfold Math_sqrt. now rewrite Rsgn_neg.
Qed.

Lemma cube_sign (T : R) : (0 < T -> 0 < T ^ 3) /\ (T < 0 -> T ^ 3 < 0).
Proof.
  split; intros HT.
  - apply pow_lt. assumption.
  - replace (T ^ 3) with (- ((- T) ^ 3)) by ring.
    assert (0 < (- T) ^ 3) by (apply pow_lt; lra). lra.
Qed.

(** ** New file names *)

Section FilenameProperties.

Import Ascii String.
Local Open Scope string_scope.
Import Filename.

Example generateNewFilename_default_path :
  generateNewFilename "./simulation_data.csv" "2024-05-01T10:20:30.000Z"
  = "./simulation_data_2024-05-01T10-20-30.000Z.csv".
Proof. reflexivity. Qed.

Example generateNewFilename_without_extension :
  generateNewFilename "data" "2024-05-01T10:20:30.000Z"
  = "_2024-05-01T10-20-30.000Z.data".
Proof. reflexivity. Qed.

Lemma str_split_cons (sep : ascii) (s : string) :
  exists first others, str_split sep s = first :: others.
Proof.
  destruct s as [| c rest]; cbn; [eauto |].
  destruct (Ascii.eqb c sep); [eauto |].
  destruct (str_split sep rest); eauto.
Qed.

Lemma append_assoc3 (a b c : string) : (a ++ b) ++ c = a ++ b ++ c.
Proof.
  induction a as [| x a IH]; cbn; [reflexivity | now rewrite IH].
Qed.

(** Joining the parts of a split with the separator gives the string back. *)
Lemma str_join_split (sep : ascii) (s : string) :
  str_join (String sep "") (str_split sep s) = s.
Proof.
  induction s as [| c rest IH]; [reflexivity |].
  cbn [str_split]. destruct (Ascii.eqb c sep) eqn:Hc.
  - apply Ascii.eqb_eq in Hc. subst c.
    destruct (str_split_cons sep rest) as (first & others & Hsplit).
    rewrite Hsplit in *.
    change (str_join (String sep "") ("" :: first :: others))
      with ("" ++ String sep "" ++ str_join (String sep "") (first :: others)).
    rewrite IH. reflexivity.
  - destruct (str_split sep rest) as [| first [| second others]].
    + cbn in IH. subst rest. reflexivity.
    + cbn in IH. subst rest. reflexivity.
    + rewrite <- IH. reflexivity.
Qed.

Lemma str_split_without (sep : ascii) (s : string) :
  contains sep s = false -> str_split sep s = [s].
Proof.
  induction s as [| c rest IH]; [reflexivity |].
  cbn [contains str_split]. intros H. apply orb_false_elim in H as [Hc Hrest].
  rewrite Hc, (IH Hrest). reflexivity.
Qed.

Lemma str_split_with (sep : ascii) (s : string) :
  contains sep s = true ->
  exists first second others, str_split sep s = first :: second :: others.
Proof.
  induction s as [| c rest IH]; [discriminate |].
  cbn [contains str_split]. intros H. destruct (Ascii.eqb c sep).
  - destruct (str_split_cons sep rest) as (first & others & ->). eauto.
  - cbn in H. destruct (IH H) as (first & second & others & ->). eauto.
Qed.

Lemma str_split_parts_clean (sep : ascii) (s : string) :
  Forall (fun part => contains sep part = false) (str_split sep s).
Proof.
  induction s as [| c rest IH]; [repeat constructor |].
  cbn [str_split]. destruct (Ascii.eqb c sep) eqn:Hc.
  - apply Forall_cons; [reflexivity | exact IH].
  - destruct (str_split sep rest) as [| first others].
    + repeat constructor. cbn. now rewrite Hc.
    + inversion IH as [| ? ? Hfirst Hothers]; subst.
      apply Forall_cons; [| exact Hothers]. cbn. now rewrite Hc, Hfirst.
Qed.

Lemma str_join_but_last (sep : string) (parts : list string) (d : string) :
  (2 <= List.length parts)%nat ->
  str_join sep (removelast parts) ++ sep ++ last parts d = str_join sep parts.
Proof.
  induction parts as [| first [| second others] IH]; intros Hlen;
    try (cbn in Hlen; lia).
  destruct others as [| third others].
  - reflexivity.
  - change (removelast (first :: second :: third :: others))
      with (first :: removelast (second :: third :: others)).
    change (last (first :: second :: third :: others) d)
      with (last (second :: third :: others) d).
    assert (Hcons : exists x xs, removelast (second :: third :: others) = x :: xs).
    { cbn. destruct others; eauto. }
    destruct Hcons as (x & xs & Hrl). rewrite Hrl in *.
    change (str_join sep (first :: x :: xs)) with (first ++ sep ++ str_join sep (x :: xs)).
    change (str_join sep (first :: second :: third :: others))
      with (first ++ sep ++ str_join sep (second :: third :: others)).
    rewrite <- IH by (cbn; lia).
    now rewrite !append_assoc3.
Qed.

Lemma last_in_Forall (P : string -> Prop) (parts : list string) (d : string) :
  parts <> [] -> Forall P parts -> P (last parts d).
Proof.
  intros Hne HP. induction HP as [| x l Hx Hl IH]; [contradiction |].
  destruct l as [| y l']; [exact Hx |]. apply IH. discriminate.
Qed.

Lemma str_replace_all_clean (c d : ascii) (s : string) :
  c <> d -> contains c (str_replace_all c d s) = false.
Proof.
  intros Hcd. induction s as [| x rest IH]; [reflexivity |].
  cbn [str_replace_all contains]. rewrite IH, orb_false_r.
  destruct (Ascii.eqb x c) eqn:Hx; [| exact Hx].
  apply Ascii.eqb_neq. congruence.
Qed.

(** X13. For a path that contains a dot, [generateNewFilename] inserts
    an underscore and the time stamp before the last dot: the result is
    base_stamp.ext where base.ext is the path, ext contains no dot, and the
    stamp is the ISO date with every colon replaced by a dash. *)
Theorem generateNewFilename_with_extension (filePath iso : string) :
  contains "." filePath = true ->
  exists base ext stamp : string,
    generateNewFilename filePath iso = base ++ "_" ++ stamp ++ "." ++ ext
    /\ base ++ "." ++ ext = filePath
    /\ contains "." ext = false
    /\ stamp = str_replace_all ":" "-" iso
    /\ contains ":" stamp = false.
Proof.
  intros Hdot. unfold generateNewFilename, slice_but_last, pop.
  exists (str_join "." (removelast (str_split "." filePath))),
    (last (str_split "." filePath) "undefined"), (str_replace_all ":" "-" iso).
  split; [reflexivity |].
  destruct (str_split_with "." filePath Hdot) as (first & second & others & Hsplit).
  split; [| split; [| split]].
  - rewrite str_join_but_last by (rewrite Hsplit; cbn; lia).
    apply (str_join_split "." filePath).
  - apply (last_in_Forall (fun part => contains "." part = false)).
    + rewrite Hsplit. discriminate.
    + apply str_split_parts_clean.
  - reflexivity.
  - apply str_replace_all_clean. discriminate.
Qed.

Lemma generateNewFilename_with_extension_witness :
  exists base ext stamp : string,
    generateNewFilename "./level_data.csv" "2024-05-01T10:20:30.000Z"
    = base ++ "_" ++ stamp ++ "." ++ ext
    /\ base ++ "." ++ ext = "./level_data.csv"
    /\ contains "." ext = false
    /\ stamp = str_replace_all ":" "-" "2024-05-01T10:20:30.000Z"
    /\ contains ":" stamp = false.
Proof.
  apply (generateNewFilename_with_extension "./level_data.csv" "2024-05-01T10:20:30.000Z").
  reflexivity.
Defined.

(** X14. For a path without any dot the whole path is taken as the
    extension and the base name is empty: the result is an underscore, the
    time stamp, a dot and then the path. *)
Theorem generateNewFilename_without_dot (filePath iso : string) :
  contains "." filePath = false ->
  generateNewFilename filePath iso
  = "_" ++ str_replace_all ":" "-" iso ++ "." ++ filePath.
Proof.
  intros Hdot. unfold generateNewFilename, slice_but_last, pop.
  rewrite (str_split_without "." filePath Hdot). reflexivity.
Qed.

Lemma generateNewFilename_without_dot_witness :
  generateNewFilename "data" "2024-05-01T10:20:30.000Z"
  = "_" ++ str_replace_all ":" "-" "2024-05-01T10:20:30.000Z" ++ "." ++ "data".
Proof.
  apply (generateNewFilename_without_dot "data" "2024-05-01T10:20:30.000Z").
  reflexivity.
Defined.

End FilenameProperties.

(** * Properties that do not depend on exact arithmetic

    The arithmetic of the model is exact on finite values.  The statements
    below are kept to what the binary64 arithmetic of the code satisfies as
    well: equalities between results of the same operations, signs, NaN and
    infinities, and finite results only under bounds on the data that keep
    every intermediate value far from overflow. *)

(** ** Infinite balance *)

Lemma emissionRate_PInf :
  V102.calculateEmissionRate (calculateSurfaceArea PInf) PInf = PInf.
Proof. apply emissionRate_of_infinite_balance. Qed.

Lemma emissionAmount_PInf (s : SourceAccount) (elapsedTime : number) :
  balance s = PInf ->
  V101.calculateEmissionAmount s elapsedTime = (PInf * elapsedTime)%num.
Proof.
  intros Hb. unfold V101.calculateEmissionAmount. cbv zeta.
  rewrite Hb, calculateEmissionRate101_eq, emissionRate_PInf. reflexivity.
Qed.


Lemma PInf_times_zero : (PInf * Fin 0)%num = NaN.
Proof. unfold mul. now rewrite Rsgn_zero. Qed.

(** ** Conservation *)



(** ** Updates that take no time *)

(** C4, counterexample.  For a source whose balance is [Infinity] the
    emission rate is [Infinity]; an update at the very time stamp of
    [lastUpdateTime] computes the amount [Infinity * 0], which is NaN, and
    both balances become NaN, in both versions. *)
Lemma zero_elapsed_with_infinite_rate :
  let s := V102.initializeSourceAccount PInf (Fin 0) in
  let st1 := V101.updateSourceAndEnvironment s V101.initializeEnvironment (Fin 0) in
  let st2 := V102.updateSourceAndEnvironment s V102.initializeEnvironment (Fin 0)
               (const_rng (/ 2)) in
  lastUpdateTime s = Fin 0
  /\ balance s = PInf
  /\ balance (fst st1) = NaN /\ V101.env_balance (snd st1) = NaN
  /\ balance (fst (fst st2)) = NaN /\ V102.env_balance (snd (fst st2)) = NaN.
Proof.
  cbv zeta. split; [reflexivity | split; [reflexivity |]].
  assert (Hamount :
            V101.calculateEmissionAmount (V102.initializeSourceAccount PInf (Fin 0))
              ((Fin 0 - Fin 0) / Fin 1000)%num = NaN).
  { rewrite (emissionAmount_PInf (V102.initializeSourceAccount PInf (Fin 0)) _ eq_refl),
      elapsedTime_Fin.
    replace ((0 - 0) / 1000) with 0 by lra. apply PInf_times_zero. }
  destruct (update101_balances (V102.initializeSourceAccount PInf (Fin 0))
              V101.initializeEnvironment (Fin 0)) as [-> ->].
  destruct (update102_balances (V102.initializeSourceAccount PInf (Fin 0))
              V102.initializeEnvironment (Fin 0) (const_rng (/ 2))) as [-> ->].
  change (lastUpdateTime (V102.initializeSourceAccount PInf (Fin 0))) with (Fin 0).
  rewrite Hamount. repeat split; reflexivity.
Qed.

Lemma zero_elapsed_step101 (s : SourceAccount) (e : V101.Environment) (b t0 : R) :
  balance s = Fin b -> lastUpdateTime s = Fin t0 -> is_finite (V101.env_balance e) ->
  balance (fst (V101.updateSourceAndEnvironment s e (Fin t0))) = balance s
  /\ V101.env_balance (snd (V101.updateSourceAndEnvironment s e (Fin t0)))
     = V101.env_balance e.
Proof.
  intros Hb Ht He. destruct (is_finite_inv _ He) as [eb Heb].
  destruct (update101_Fin s e b t0 eb t0 Hb Ht Heb) as [-> ->].
  rewrite Hb, Heb. replace ((t0 - t0) / 1000) with 0 by lra.
  split; f_equal; lra.
Qed.

Lemma zero_elapsed_step102 (s : SourceAccount) (e : V102.Environment) (g : rng)
    (b t0 : R) :
  balance s = Fin b -> lastUpdateTime s = Fin t0 -> is_finite (V102.env_balance e) ->
  balance (fst (fst (V102.updateSourceAndEnvironment s e (Fin t0) g))) = balance s
  /\ V102.env_balance (snd (fst (V102.updateSourceAndEnvironment s e (Fin t0) g)))
     = V102.env_balance e.
Proof.
  intros Hb Ht He. destruct (is_finite_inv _ He) as [eb Heb].
  destruct (update102_Fin s e g b t0 eb t0 Hb Ht Heb) as [-> ->].
  rewrite Hb, Heb. replace ((t0 - t0) / 1000) with 0 by lra.
  split; f_equal; lra.
Qed.

(** C4, as the code has it.  For finite balances and a finite
    [lastUpdateTime], when the source balance is at most 1e60 in absolute
    value (its emission rate is then finite), an update whose time stamp
    equals [lastUpdateTime] leaves both balances unchanged, in both versions
    and whatever the draws.  After an update at a finite time stamp
    [lastUpdateTime] is that time stamp, so a second update at the same time
    stamp changes neither balance when the balances it starts from are again
    finite, the source balance at most 1e60 in absolute value. *)
Theorem zero_elapsed_idempotent_bounded
    (s : SourceAccount) (e1 : V101.Environment) (e2 : V102.Environment)
    (g g' : rng) (b t0 : R) :
  balance s = Fin b -> Rabs b <= 1e60 -> lastUpdateTime s = Fin t0 ->
  is_finite (V101.env_balance e1) -> is_finite (V102.env_balance e2) ->
  (balance (fst (V101.updateSourceAndEnvironment s e1 (Fin t0))) = balance s
   /\ V101.env_balance (snd (V101.updateSourceAndEnvironment s e1 (Fin t0)))
      = V101.env_balance e1
   /\ balance (fst (fst (V102.updateSourceAndEnvironment s e2 (Fin t0) g))) = balance s
   /\ V102.env_balance (snd (fst (V102.updateSourceAndEnvironment s e2 (Fin t0) g)))
      = V102.env_balance e2)
  /\
  (forall (tc b1 : R),
     let st1 := V101.updateSourceAndEnvironment s e1 (Fin tc) in
     balance (fst st1) = Fin b1 -> Rabs b1 <= 1e60 ->
     is_finite (V101.env_balance (snd st1)) ->
     balance (fst (V101.updateSourceAndEnvironment (fst st1) (snd st1) (Fin tc)))
     = balance (fst st1)
     /\ V101.env_balance
          (snd (V101.updateSourceAndEnvironment (fst st1) (snd st1) (Fin tc)))
        = V101.env_balance (snd st1))
  /\
  (forall (tc b1 : R),
     let st2 := fst (V102.updateSourceAndEnvironment s e2 (Fin tc) g) in
     balance (fst st2) = Fin b1 -> Rabs b1 <= 1e60 ->
     is_finite (V102.env_balance (snd st2)) ->
     balance (fst (fst (V102.updateSourceAndEnvironment (fst st2) (snd st2) (Fin tc) g')))
     = balance (fst st2)
     /\ V102.env_balance
          (snd (fst (V102.updateSourceAndEnvironment (fst st2) (snd st2) (Fin tc) g')))
        = V102.env_balance (snd st2)).
Proof.
  intros Hb Hbound Ht He1 He2. split; [| split].
  - destruct (zero_elapsed_step101 s e1 b t0 Hb Ht He1) as [H1 H2].
    destruct (zero_elapsed_step102 s e2 g b t0 Hb Ht He2) as [H3 H4].
    repeat split; assumption.
  - intros tc b1 st1 Hb1 _ Hfin.
    apply (zero_elapsed_step101 (fst st1) (snd st1) b1 tc Hb1); [| exact Hfin].
    apply update101_lastUpdateTime.
  - intros tc b1 st2 Hb1 _ Hfin.
    apply (zero_elapsed_step102 (fst st2) (snd st2) g' b1 tc Hb1); [| exact Hfin].
    apply update102_lastUpdateTime.
Qed.

Lemma zero_elapsed_idempotent_bounded_witness :
  let s := V102.initializeSourceAccount (Fin 1000) (Fin 5000) in
  balance (fst (fst (V102.updateSourceAndEnvironment s V102.initializeEnvironment
                       (Fin 5000) (const_rng (/ 2)))))
  = balance s
  /\ V102.env_balance
       (snd (fst (V102.updateSourceAndEnvironment s V102.initializeEnvironment
                    (Fin 5000) (const_rng (/ 2)))))
     = V102.env_balance V102.initializeEnvironment.
Proof.
  intros s.
  assert (Hbound : Rabs 1000 <= 1e60) by (rewrite Rabs_pos_eq; lra).
  destruct (zero_elapsed_idempotent_bounded s V101.initializeEnvironment
              V102.initializeEnvironment (const_rng (/ 2)) (const_rng (/ 2)) 1000 5000
              eq_refl Hbound eq_refl I I) as [(_ & _ & H3 & H4) _].
  split; assumption.
Defined.

(** ** Elapsed time that is zero or negative *)

(** C3, counterexample.  With the clock one second back the emission
    amount of a source of balance [big_volume] (about 4188786.67) is about
    -4717.6, not 0; an update of 1.0.2 whose time stamp is 1000 ms before
    [lastUpdateTime] lowers the environment balance below its initial 0 and
    raises the source balance.  For a source of infinite balance the amount at
    elapsed time 0 is NaN. *)
Lemma emission_negative_when_clock_goes_back :
  let s := V102.initializeSourceAccount (Fin big_volume) (Fin 1000) in
  let st := V102.updateSourceAndEnvironment s V102.initializeEnvironment (Fin 0)
              (const_rng (/ 2)) in
  (exists r, V101.calculateEmissionAmount s (Fin (-1)) = Fin r /\ -4718 < r < -4717)
  /\ (exists r, V102.env_balance (snd (fst st)) = Fin r /\ -4718 < r < -4717)
  /\ (exists r, balance (fst (fst st)) = Fin r /\ big_volume < r)
  /\ V101.calculateEmissionAmount (V102.initializeSourceAccount PInf (Fin 0)) (Fin 0) = NaN.
Proof.
  cbv zeta.
  assert (Hrate : 4717 < rate_R big_volume < 4718).
  { rewrite rate_R_big. unfold big_volume, ball_volume. split; lra. }
  split; [| split; [| split]].
  - exists (rate_R big_volume * -1). split; [| lra].
    now apply emissionAmount_Fin.
  - destruct (update102_Fin (V102.initializeSourceAccount (Fin big_volume) (Fin 1000))
                V102.initializeEnvironment (const_rng (/ 2)) big_volume 1000 0 0
                eq_refl eq_refl eq_refl) as [_ ->].
    eexists. split; [reflexivity | lra].
  - destruct (update102_Fin (V102.initializeSourceAccount (Fin big_volume) (Fin 1000))
                V102.initializeEnvironment (const_rng (/ 2)) big_volume 1000 0 0
                eq_refl eq_refl eq_refl) as [-> _].
    eexists. split; [reflexivity | lra].
  - rewrite (emissionAmount_PInf (V102.initializeSourceAccount PInf (Fin 0)) _ eq_refl).
    apply PInf_times_zero.
Qed.

(** C3, as the code has it.  The emission amount is the rate times the
    elapsed seconds, without any guard.  For a balance at most 1e60 in
    absolute value and elapsed seconds [dt] with [-1e30 <= dt <= 0] it is a
    finite number that is never positive, and it is 0 when [dt = 0].
    1.0.1 computes it in [calculateEmissionAmount], 1.0.2 inline. *)
Theorem emission_amount_unguarded (s : SourceAccount) (b dt : R) :
  balance s = Fin b -> Rabs b <= 1e60 -> -1e30 <= dt <= 0 ->
  exists a : R,
    V101.calculateEmissionAmount s (Fin dt) = Fin a
    /\ (V102.calculateEmissionRate (calculateSurfaceArea (balance s)) (balance s)
        * Fin dt)%num = Fin a
    /\ a <= 0
    /\ (dt = 0 -> a = 0).
Proof.
  intros Hb _ Hdt. pose proof (rate_R_nonneg b) as Hr.
  exists (rate_R b * dt).
  split; [now apply emissionAmount_Fin |].
  split; [rewrite <- (emissionAmount_Fin s b dt Hb); reflexivity |].
  split; [nra |]. intros ->. ring.
Qed.

Lemma emission_amount_unguarded_witness :
  exists a : R,
    V101.calculateEmissionAmount (V101.initializeSourceAccount (Fin 1000) (Fin 0))
      (Fin (-1)) = Fin a
    /\ a <= 0.
Proof.
  assert (Hbound : Rabs 1000 <= 1e60) by (rewrite Rabs_pos_eq; lra).
  assert (Hdt : -1e30 <= -1 <= 0) by lra.
  destruct (emission_amount_unguarded (V101.initializeSourceAccount (Fin 1000) (Fin 0))
              1000 (-1) eq_refl Hbound Hdt) as (a & Ha & _ & Hle & _).
  exists a. split; assumption.
Defined.

(** ** Surface area without a check of the volume *)

(** C7, as the code has it.  There is no check of the argument: for a
    finite volume [v <= 0] the function returns the same number as for the
    volume [- v], a finite number that is never negative; it is 0 for [v = 0]
    and positive for [v <= -1e-300]. *)
Theorem surfaceArea_of_nonpositive_volume (v : R) :
  v <= 0 ->
  calculateSurfaceArea (Fin v) = calculateSurfaceArea (Fin (- v))
  /\ exists a : R,
       calculateSurfaceArea (Fin v) = Fin a
       /\ 0 <= a
       /\ (v = 0 -> a = 0)
       /\ (v <= -1e-300 -> 0 < a).
Proof.
  intros Hv. split.
  - rewrite !calculateSurfaceArea_Fin, area_R_opp. reflexivity.
  - exists (area_R v). split; [apply calculateSurfaceArea_Fin |].
    split; [apply area_R_nonneg |]. split.
    + intros ->. apply area_R_0.
    + intros Hlt. apply area_R_pos. lra.
Qed.

Lemma surfaceArea_of_nonpositive_volume_witness :
  calculateSurfaceArea (Fin (-1)) = calculateSurfaceArea (Fin (- -1)).
Proof.
  apply (surfaceArea_of_nonpositive_volume (-1)). lra.
Defined.

(** ** The constant used for pi *)

(** C6, as the code has it.  The result is 4 * p * radius^2 with
    radius = cbrt (volume / ((4/3) * p)) where [p] is the program's constant
    3.14159, which is smaller than the mathematical constant (the value of
    [Math.PI]). *)
Theorem surfaceArea_uses_truncated_pi (volume : number) :
  let p := Fin 3.14159 in
  let radius := Math_cbrt (volume / ((Fin 4 / Fin 3) * p)) in
  calculateSurfaceArea volume = (Fin 4 * p * Math_pow radius (Fin 2))%num
  /\ 3.14159 < PI
  /\ p <> Math_PI.
Proof.
  cbv zeta. split; [reflexivity |]. pose proof PI_above_code_constant as Hpi.
  split; [exact Hpi |].
  unfold Math_PI. intros Heq. injection Heq as Heq. lra.
Qed.

(** ** The sampler on draws from the range of [Math.random] *)

Lemma draws_in_range_skip (n : nat) (g : rng) : draws_in_range g -> draws_in_range (skip n g).
Proof. intros Hg i. apply Hg. Qed.

Lemma sample_of_draws_in_range (k : R) (g : rng) :
  0 < k -> draws_in_range g ->
  let x := (Math_pow (Fin (g 0%nat)) (Fin (-1) / Fin k) - Fin 1)%num in
  let y := (Math_pow (Fin (g 1%nat)) (Fin (-1) / Fin k) - Fin 1)%num in
  let z := (Math_pow (Fin (g 2%nat)) (Fin (-1) / Fin k) - Fin 1)%num in
  nonneg_or_infinite ((x + y + z) / Fin 3)%num.
Proof.
  intros Hk Hg. cbv zeta.
  destruct (exponent_Fin k Hk) as [-> Hneg].
  destruct (transform_of_draw (g 0%nat) _ (Hg 0%nat) Hneg) as [[Hu ->] | [Hu ->]];
    destruct (transform_of_draw (g 1%nat) _ (Hg 1%nat) Hneg) as [[Hv ->] | [Hv ->]];
    destruct (transform_of_draw (g 2%nat) _ (Hg 2%nat) Hneg) as [[Hw ->] | [Hw ->]];
    cbn [sub add neg div]; rewrite ?(Rsgn_pos 3) by lra;
    try (left; reflexivity).
  right. eexists. split; [reflexivity |].
  pose proof (Rpower_gt_1 (g 0%nat) _ (conj Hu (proj2 (Hg 0%nat))) Hneg).
  pose proof (Rpower_gt_1 (g 1%nat) _ (conj Hv (proj2 (Hg 1%nat))) Hneg).
  pose proof (Rpower_gt_1 (g 2%nat) _ (conj Hw (proj2 (Hg 2%nat))) Hneg).
  lra.
Qed.

Lemma kappaRandom_values_nonneg (k : R) (n : nat) (g : rng) :
  0 < k -> draws_in_range g ->
  Forall nonneg_or_infinite (fst (V102.kappaRandom (Fin k) n g)).
Proof.
  intros Hk. revert g. induction n as [| n IH]; intros g Hg.
  - apply Forall_nil.
  - rewrite kappaRandom_S. cbv zeta. cbn [fst]. apply Forall_cons.
    + apply (sample_of_draws_in_range k g Hk Hg).
    + apply IH. now apply draws_in_range_skip.
Qed.

Lemma add_nonneg_or_infinite (a b : number) :
  nonneg_or_infinite a -> nonneg_or_infinite b -> nonneg_or_infinite (a + b)%num.
Proof.
  intros [-> | (x & -> & Hx)] [-> | (y & -> & Hy)]; cbn [add];
    try (left; reflexivity).
  right. exists (x + y). split; [reflexivity | lra].
Qed.


Lemma zero_nonneg : nonneg_or_infinite (Fin 0).
Proof. right. exists 0. split; [reflexivity | lra]. Qed.


Lemma add_PInf_nonneg (a : number) : nonneg_or_infinite a -> (PInf + a)%num = PInf.
Proof. intros [-> | (x & -> & _)]; reflexivity. Qed.

Lemma add_nonneg_PInf (a : number) : nonneg_or_infinite a -> (a + PInf)%num = PInf.
Proof. intros [-> | (x & -> & _)]; reflexivity. Qed.

Lemma fold_add_from_PInf (l : list number) :
  Forall nonneg_or_infinite l ->
  fold_left (fun sum val => (sum + val)%num) l PInf = PInf.
Proof.
  intros Hl. induction Hl as [| a l Ha Hl IH]; [reflexivity |].
  cbn [fold_left]. now rewrite add_PInf_nonneg.
Qed.

Lemma fold_add_reaches_PInf (l : list number) (acc : number) :
  nonneg_or_infinite acc -> Forall nonneg_or_infinite l -> In PInf l ->
  fold_left (fun sum val => (sum + val)%num) l acc = PInf.
Proof.
  intros Hacc Hl. revert acc Hacc.
  induction Hl as [| a l Ha Hl IH]; intros acc Hacc Hin; [contradiction |].
  cbn [fold_left]. destruct Hin as [-> | Hin].
  - rewrite add_nonneg_PInf by assumption. now apply fold_add_from_PInf.
  - apply IH; [now apply add_nonneg_or_infinite | exact Hin].
Qed.

Lemma reduce_sum_infinite (l : list number) :
  Forall nonneg_or_infinite l -> In PInf l -> reduce_sum l = PInf.
Proof.
  intros Hl Hin. apply fold_add_reaches_PInf; [apply zero_nonneg | assumption ..].
Qed.

Lemma add_NaN_r (a : number) : (a + NaN)%num = NaN.
Proof. now destruct a. Qed.


(** A zero among the three draws of sample number [i] makes it infinite. *)
Lemma kappaRandom_zero_sample (k : R) (n : nat) (g : rng) (i : nat) :
  0 < k -> draws_in_range g -> (i < n)%nat ->
  g (3 * i)%nat = 0 \/ g (3 * i + 1)%nat = 0 \/ g (3 * i + 2)%nat = 0 ->
  nth_error (fst (V102.kappaRandom (Fin k) n g)) i = Some PInf.
Proof.
  intros Hk. revert n g. induction i as [| i IH]; intros n g Hg Hi Hzero.
  - destruct n as [| n]; [lia |].
    rewrite (first_sample_infinite k n g Hk Hg); [reflexivity |].
    exact Hzero.
  - destruct n as [| n]; [lia |].
    rewrite kappaRandom_S. cbv zeta. cbn [fst nth_error].
    apply IH; [now apply draws_in_range_skip | lia |].
    unfold skip.
    replace (3 + 3 * i)%nat with (3 * S i)%nat by lia.
    replace (3 + (3 * i + 1))%nat with (3 * S i + 1)%nat by lia.
    replace (3 + (3 * i + 2))%nat with (3 * S i + 2)%nat by lia.
    exact Hzero.
Qed.

Lemma add_levels_nth (lv incs : list number) (i : nat) (d : number) :
  nth_error incs i = Some d ->
  nth_error (add_levels lv incs) i = Some (to_number (nth_error lv i) + d)%num.
Proof.
  revert lv i. induction incs as [| d0 ds IH]; intros lv i Hd.
  - destruct i; discriminate.
  - destruct i as [| i]; cbn [nth_error] in Hd.
    + injection Hd as ->. destruct lv as [| l lv']; reflexivity.
    + destruct lv as [| l lv']; cbn [add_levels nth_error].
      * rewrite (IH [] i Hd). now destruct i.
      * apply IH. exact Hd.
Qed.

(** The level written at index [i] by an update, from the sample at [i]. *)
Lemma update102_level_nth (s : SourceAccount) (e : V102.Environment) (t : number)
    (g : rng) (i : nat) (v : number) :
  let amount :=
    (V102.calculateEmissionRate (calculateSurfaceArea (balance s)) (balance s)
     * ((t - lastUpdateTime s) / Fin 1000))%num in
  let values := fst (V102.kappaRandom V102.KAPPA 100 g) in
  nth_error values i = Some v ->
  nth_error (V102.levels (snd (fst (V102.updateSourceAndEnvironment s e t g)))) i
  = Some (to_number (nth_error (V102.levels e) i) + v / reduce_sum values * amount)%num.
Proof.
  cbv zeta. intros Hv. destruct (update102_levels s e t g) as [-> _].
  apply add_levels_nth. rewrite !nth_error_map, Hv. reflexivity.
Qed.

Lemma zero_draw_level_NaN (s : SourceAccount) (e : V102.Environment) (t : number)
    (g : rng) (i : nat) :
  draws_in_range g -> (i < 100)%nat ->
  g (3 * i)%nat = 0 \/ g (3 * i + 1)%nat = 0 \/ g (3 * i + 2)%nat = 0 ->
  nth_error (V102.levels (snd (fst (V102.updateSourceAndEnvironment s e t g)))) i
  = Some NaN.
Proof.
  intros Hg Hi Hzero. destruct KAPPA_positive as [HK Hk].
  pose proof (kappaRandom_zero_sample 3.5 100 g i Hk Hg Hi Hzero) as Hnth.
  pose proof (kappaRandom_values_nonneg 3.5 100 g Hk Hg) as Hrange.
  rewrite <- HK in Hnth, Hrange.
  rewrite (update102_level_nth s e t g i PInf Hnth).
  rewrite (reduce_sum_infinite _ Hrange (nth_error_In _ _ Hnth)).
  cbn [div mul]. now rewrite add_NaN_r.
Qed.

(** ** The samples and their sum *)






(** ** No guard against a draw of 0 *)

(** C8, as the code has it.  The sampler has no guard and no retry: it
    makes exactly three draws per sample, whatever their values, and uses them
    as drawn.  For draws from the range of [Math.random] and a finite
    [kappa > 0], when one of the three draws of sample number [i] is 0 that
    sample is [Infinity], and an update whose sample number [i < 100] has such
    a draw leaves NaN in [environment.levels[i]], whatever the state. *)
Theorem zero_draw_is_not_guarded
    (k : R) (numSamples : nat) (g : rng) (i : nat)
    (s : SourceAccount) (e : V102.Environment) (t : number) :
  0 < k -> draws_in_range g ->
  g (3 * i)%nat = 0 \/ g (3 * i + 1)%nat = 0 \/ g (3 * i + 2)%nat = 0 ->
  (length (fst (V102.kappaRandom (Fin k) numSamples g)) = numSamples
   /\ forall j : nat,
        snd (V102.kappaRandom (Fin k) numSamples g) j = g (3 * numSamples + j)%nat)
  /\ ((i < numSamples)%nat ->
      nth_error (fst (V102.kappaRandom (Fin k) numSamples g)) i = Some PInf)
  /\ ((i < 100)%nat ->
      nth_error (V102.levels (snd (fst (V102.updateSourceAndEnvironment s e t g)))) i
      = Some NaN).
Proof.
  intros Hk Hg Hzero. split; [apply kappaRandom_shape | split].
  - intros Hi. now apply kappaRandom_zero_sample.
  - intros Hi. now apply zero_draw_level_NaN.
Qed.

Lemma zero_draw_is_not_guarded_witness :
  nth_error (fst (V102.kappaRandom (Fin 3.5) 100 zero_first)) 0 = Some PInf
  /\ nth_error
       (V102.levels
          (snd (fst (V102.updateSourceAndEnvironment
                       (V102.initializeSourceAccount (Fin 1000) (Fin 0))
                       V102.initializeEnvironment (Fin 1000) zero_first)))) 0
     = Some NaN.
Proof.
  assert (H35 : 0 < 3.5) by lra.
  assert (Hzero : zero_first (3 * 0)%nat = 0 \/ zero_first (3 * 0 + 1)%nat = 0
                  \/ zero_first (3 * 0 + 2)%nat = 0) by (left; reflexivity).
  destruct (zero_draw_is_not_guarded 3.5 100 zero_first 0
              (V102.initializeSourceAccount (Fin 1000) (Fin 0))
              V102.initializeEnvironment (Fin 1000) H35 zero_first_in_range Hzero)
    as (_ & Hsample & Hlevel).
  split; [apply Hsample; lia | apply Hlevel; lia].
Defined.

(** ** What an update adds to the levels *)



(** * Further properties of the code, independent of rounding *)

(** ** The emission rate *)

(** X3. The emission rate of 1.0.1 ignores its third argument and is the
    rate of 1.0.2; the rate is an even function of the temperature argument
    (the program passes the balance there), so a negative balance gets the
    rate of its absolute value; and it is 0 at temperature 0 for every finite
    surface area. *)
Theorem emissionRate_even_and_zero (a : number) (x T : R) (b b' : number) :
  V101.calculateEmissionRate a (Fin T) b = V101.calculateEmissionRate a (Fin T) b'
  /\ V101.calculateEmissionRate a (Fin T) b = V102.calculateEmissionRate a (Fin T)
  /\ V102.calculateEmissionRate a (Fin (- T)) = V102.calculateEmissionRate a (Fin T)
  /\ V102.calculateEmissionRate (Fin x) (Fin 0) = Fin 0.
Proof.
  split; [reflexivity | split; [reflexivity | split]].
  - unfold V102.calculateEmissionRate. rewrite !Math_pow_4.
    replace ((- T) ^ 4) with (T ^ 4) by ring. reflexivity.
  - rewrite calculateEmissionRate102_Fin. f_equal. unfold Rdiv. ring.
Qed.

(** ** One update with the clock going forward *)

(** X6. For finite data of moderate size (a source balance of at most
    1e60 in absolute value, an environment balance of at most 1e300, time
    stamps of at most 1e30) an update whose time stamp is not before
    [lastUpdateTime] stores two finite balances; it never raises the source
    balance and never lowers the environment balance, in both versions. *)
Theorem forward_update_moves_one_way
    (s : SourceAccount) (e1 : V101.Environment) (e2 : V102.Environment) (g : rng)
    (b t0 eb tc : R) :
  balance s = Fin b -> lastUpdateTime s = Fin t0 ->
  V101.env_balance e1 = Fin eb -> V102.env_balance e2 = Fin eb ->
  Rabs b <= 1e60 -> Rabs eb <= 1e300 -> Rabs t0 <= 1e30 -> Rabs tc <= 1e30 ->
  t0 <= tc ->
  exists b' eb' : R,
    balance (fst (V101.updateSourceAndEnvironment s e1 (Fin tc))) = Fin b'
    /\ V101.env_balance (snd (V101.updateSourceAndEnvironment s e1 (Fin tc))) = Fin eb'
    /\ balance (fst (fst (V102.updateSourceAndEnvironment s e2 (Fin tc) g))) = Fin b'
    /\ V102.env_balance (snd (fst (V102.updateSourceAndEnvironment s e2 (Fin tc) g)))
       = Fin eb'
    /\ b' <= b /\ eb <= eb'.
Proof.
  intros Hb Ht He1 He2 _ _ _ _ Htc.
  destruct (update101_Fin s e1 b t0 eb tc Hb Ht He1) as [H1 H2].
  destruct (update102_Fin s e2 g b t0 eb tc Hb Ht He2) as [H3 H4].
  exists (b - rate_R b * ((tc - t0) / 1000)), (eb + rate_R b * ((tc - t0) / 1000)).
  split; [exact H1 |]. split; [exact H2 |]. split; [exact H3 |]. split; [exact H4 |].
  pose proof (rate_R_nonneg b) as Hr.
  assert (0 <= rate_R b * ((tc - t0) / 1000)) by (apply Rmult_le_pos; lra).
  split; lra.
Qed.

Lemma forward_update_moves_one_way_witness :
  exists b' eb' : R,
    balance (fst (V101.updateSourceAndEnvironment
                    (V101.initializeSourceAccount (Fin 1000) (Fin 0))
                    V101.initializeEnvironment (Fin 1000))) = Fin b'
    /\ V101.env_balance
         (snd (V101.updateSourceAndEnvironment
                 (V101.initializeSourceAccount (Fin 1000) (Fin 0))
                 V101.initializeEnvironment (Fin 1000))) = Fin eb'
    /\ b' <= 1000 /\ 0 <= eb'.
Proof.
  assert (Hb : Rabs 1000 <= 1e60) by (rewrite Rabs_pos_eq; lra).
  assert (He : Rabs 0 <= 1e300) by (rewrite Rabs_R0; lra).
  assert (Ht0 : Rabs 0 <= 1e30) by (rewrite Rabs_R0; lra).
  assert (Htc : Rabs 1000 <= 1e30) by (rewrite Rabs_pos_eq; lra).
  assert (Hle : 0 <= 1000) by lra.
  destruct (forward_update_moves_one_way
              (V101.initializeSourceAccount (Fin 1000) (Fin 0))
              V101.initializeEnvironment V102.initializeEnvironment (const_rng (/ 2))
              1000 0 0 1000 eq_refl eq_refl eq_refl eq_refl Hb He Ht0 Htc Hle)
    as (b' & eb' & H1 & H2 & _ & _ & Hb' & Heb').
  exists b', eb'. repeat split; assumption.
Defined.

(** ** The Maxwell-Boltzmann function without a check of the temperature *)

Lemma maxwellBoltzmann_at_zero (e : R) :
  maxwellBoltzmannProbability (Fin e) (Fin 0) = NaN.
Proof.
  unfold maxwellBoltzmannProbability, Math_PI. rewrite Math_pow_3, mul_Fin.
  replace (PI * 0 ^ 3) with 0 by ring.
  cbn [neg]. unfold div. rewrite Rsgn_zero.
  destruct (Rsgn_cases e) as [[Hlt ->] | [[Heq ->] | [Hgt ->]]].
  - reflexivity.
  - reflexivity.
  - rewrite (Rsgn_neg (- e)) by lra. cbn [Math_sqrt Math_exp mul].
    now rewrite Rsgn_zero.
Qed.

(** X12. [maxwellBoltzmannProbability] does not check its temperature.
    At temperature 0 the result is NaN for every finite energy (the quotient
    under the root is infinite or NaN); for a negative temperature of at most
    1e100 in absolute value and an energy of at least 1 the quotient under the
    root is negative and the result is NaN as well. *)
Theorem maxwellBoltzmann_NaN_without_check (e T : R) :
  maxwellBoltzmannProbability (Fin e) (Fin 0) = NaN
  /\ (1 <= e -> -1e100 <= T < 0 -> maxwellBoltzmannProbability (Fin e) (Fin T) = NaN).
Proof.
  split; [apply maxwellBoltzmann_at_zero |].
  intros He [_ HT]. pose proof PI_RGT_0 as Hpi.
  destruct (cube_sign T) as [_ Hcube]. specialize (Hcube HT).
  assert (Hden : PI * T ^ 3 < 0) by nra.
  unfold maxwellBoltzmannProbability, Math_PI. rewrite Math_pow_3, mul_Fin.
  rewrite (div_Fin e) by lra.
  rewrite Math_sqrt_negative; [reflexivity |].
  unfold Rdiv. assert (/ (PI * T ^ 3) < 0) by (apply Rinv_lt_0_compat; exact Hden).
  nra.
Qed.

Lemma maxwellBoltzmann_NaN_without_check_witness :
  maxwellBoltzmannProbability (Fin 1) (Fin 0) = NaN
  /\ maxwellBoltzmannProbability (Fin 1) (Fin (-1)) = NaN.
Proof.
  assert (He : 1 <= 1) by lra.
  assert (HT : -1e100 <= -1 < 0) by lra.
  destruct (maxwellBoltzmann_NaN_without_check 1 (-1)) as [Hzero Hneg].
  split; [exact Hzero | exact (Hneg He HT)].
Defined.

(** ** The simulation loop *)













Lemma main_start_inv (c : clock) (g : rng) :
  file_inv (main_start c g) /\ level_file_inv 0 (main_start c g)
  /\ csvData (main_start c g) = [] /\ iterationCount (main_start c g) = 0%nat.
Proof.
  split; [exists []; split; [reflexivity | left; repeat split; reflexivity] |].
  split; [split; [reflexivity | left; repeat split; reflexivity] |].
  split; reflexivity.
Qed.


Lemma main_loop_keeps_data_empty (stop : nat -> bool) (fuel j : nat) (st st' : Sim) :
  csvData st = [] -> main_loop fuel stop j st = Some st' -> csvData st' = [].
Proof.
  revert j st. induction fuel as [| fuel IH]; intros j st Hdata Hrun; [discriminate |].
  cbn [main_loop] in Hrun.
  destruct (negb (stop j) && gt_zero (balance (sim_source st))).
  - apply (IH (S j) (logData (batch 10 st))); [reflexivity | exact Hrun].
  - injection Hrun as <-. exact Hdata.
Qed.

Lemma main_start_balance (c : clock) (g : rng) :
  gt_zero (balance (sim_source (main_start c g))) = true.
Proof.
  change (gt_zero (Fin 1000) = true). unfold gt_zero. rewrite Rsgn_pos by lra. reflexivity.
Qed.

(** With the return key pressed between the first and the second test of
    the condition, the loop runs one batch and one [logData]. *)
Lemma main_loop_one_round (c : clock) (g : rng) :
  main_loop 2 (fun j => Nat.eqb j 1) 0 (main_start c g)
  = Some (logData (batch 10 (main_start c g))).
Proof.
  change (main_loop 2 (fun j => Nat.eqb j 1) 0 (main_start c g))
    with (if negb (Nat.eqb 0 1) && gt_zero (balance (sim_source (main_start c g)))
          then main_loop 1 (fun j => Nat.eqb j 1) 1 (logData (batch 10 (main_start c g)))
          else Some (main_start c g)).
  rewrite main_start_balance. reflexivity.
Qed.


(** X16. Whenever the simulation loop of 1.0.2 ends, [csvData] is empty,
    every batch having been flushed by [logData]: the time, source balance and
    environment balance series that [main] then reads from [csvData] for its
    charts have no points. *)
Theorem charts_read_an_empty_csvData
    (c : clock) (g : rng) (stop : nat -> bool) (fuel : nat) (st : Sim) :
  main_loop fuel stop 0 (main_start c g) = Some st ->
  csvData st = []
  /\ timeStamps st = [] /\ sourceBalanceData st = [] /\ environmentBalanceData st = [].
Proof.
  intros Hrun.
  destruct (main_start_inv c g) as (_ & _ & Hstart & _).
  pose proof (main_loop_keeps_data_empty stop fuel 0 _ st Hstart Hrun) as Hdata.
  unfold timeStamps, sourceBalanceData, environmentBalanceData. rewrite Hdata.
  repeat split; reflexivity.
Qed.

Lemma charts_read_an_empty_csvData_witness :
  let st := logData (batch 10 (main_start (const_rng 0) (const_rng (/ 2)))) in
  main_loop 2 (fun j => Nat.eqb j 1) 0 (main_start (const_rng 0) (const_rng (/ 2)))
  = Some st
  /\ csvData st = []
  /\ timeStamps st = [] /\ sourceBalanceData st = [] /\ environmentBalanceData st = [].
Proof.
  intros st.
  pose proof (main_loop_one_round (const_rng 0) (const_rng (/ 2))) as Hrun.
  split; [exact Hrun |].
  apply (charts_read_an_empty_csvData (const_rng 0) (const_rng (/ 2))
           (fun j => Nat.eqb j 1) 2 st Hrun).
Defined.


